(** * LyftrAI_v1: the message store, the signature check and the metrics
      collector, embedded from [app/storage.py], [app/main.py] and
      [app/metrics.py].

    Conventions of the embedding.
    - A Python [str] is a [string]: one [ascii] per character, read as the
      code point of that character (code points below 256; the characters
      from 128 on are the non-ASCII ones).  Comparison of [str] values, in
      Python and under SQLite's BINARY collation alike, is lexicographic
      on code points, which is [String.compare].  The E.164 pattern looks
      at characters beyond these: there a [str] is the list of its code
      points.
    - [bytes] is a [list Byte.byte]; [None] / SQL NULL is [option]'s [None].
    - A Python [int] is a [Z]; a count that is never negative is a [nat].
      The driver binds an [int] as a signed 64-bit INTEGER ([bind_int]);
      the size limits of the engine on strings (their length, the length
      of a LIKE pattern) are outside the model and appear as hypotheses.
    - A Python [float] is a binary64 [float] of PrimFloat.
    - A method that reads or writes the database takes the database state
      and returns its result, with the new state when it writes.
    - A call that may raise returns a [result]. *)

From Stdlib Require Import List String Ascii Bool Arith ZArith Lia.
From Stdlib Require Import Permutation Sorted.
From Stdlib Require Import Floats Uint63 DecimalString.
From Stdlib Require DecimalZ.
Import ListNotations.

Local Open Scope string_scope.
Local Open Scope list_scope.

(** ** Exceptions and results *)

Inductive exn : Type :=
| IntegrityError    (* sqlite3.IntegrityError: a constraint failed *)
| OperationalError  (* sqlite3.OperationalError: no such table *)
| TypeError         (* hmac.compare_digest on a non-ASCII str *)
| KeyError          (* a dict has no such key *)
| OverflowError.    (* a Python int that is no SQLite INTEGER *)

Inductive result (A : Type) : Type :=
| Ok (a : A)
| Raise (e : exn).
Arguments Ok {A} a.
Arguments Raise {A} e.

Definition raises {A : Type} (r : result A) : bool :=
  match r with Ok _ => false | Raise _ => true end.

Definition bind {A B : Type} (r : result A) (k : A -> result B) : result B :=
  match r with Ok a => k a | Raise e => Raise e end.

Notation "x <- r ;; k" := (bind r (fun x => k))
  (at level 61, r at next level, right associativity).

(** Python truthiness of an [Optional[str]]: [None] and [""] are falsy. *)
Definition truthy (o : option string) : bool :=
  match o with
  | None => false
  | Some s => negb (s =? "")
  end.

(** ** app/storage.py *)

Module Storage.

(** A row of the table [messages]; the columns declared NOT NULL hold a
    [string], the nullable column [text] an [option string]. *)
Record Row : Type := mkRow {
  message_id : string;
  from_msisdn : string;
  to_msisdn : string;
  ts : string;
  text : option string;
  created_at : string
}.

(** The table in rowid (insertion) order. *)
Definition Table : Type := list Row.

(** The database file: [None] until [init_schema] has created the table. *)
Definition Database : Type := option Table.

(** [init_schema]: CREATE TABLE IF NOT EXISTS. *)
Definition init_schema (db : Database) : Database :=
  match db with
  | None => Some []
  | Some t => Some t
  end.


Definition has_key (t : Table) (k : string) : bool :=
  existsb (fun r => message_id r =? k) t.

(** The INSERT statement of [insert_message], with its six bound values.
    The engine refuses a NULL in a NOT NULL column and a second row with
    the same PRIMARY KEY, both with an IntegrityError. *)
Definition execute_insert (db : Database) (mid : string)
    (from_ to_ ts_ text_ : option string) (created : string)
  : result Database :=
  match db with
  | None => Raise OperationalError
  | Some t =>
      match from_, to_, ts_ with
      | Some f, Some d, Some s =>
          if has_key t mid then Raise IntegrityError
          else Ok (Some (t ++ [mkRow mid f d s text_ created]))
      | _, _, _ => Raise IntegrityError
      end
  end.

(** [Database.insert_message].  [now] is the clock reading that becomes
    [created_at].  The result pairs the returned [(success, is_duplicate)],
    or the exception that escapes, with the database afterwards. *)
Definition insert_message (db : Database) (now : string) (mid : string)
    (from_ to_ ts_ text_ : option string)
  : result (bool * bool) * Database :=
  match execute_insert db mid from_ to_ ts_ text_ now with
  | Ok db' => (Ok (true, false), db')              (* commit; return True, False *)
  | Raise IntegrityError => (Ok (true, true), db)  (* except IntegrityError *)
  | Raise e => (Raise e, db)
  end.

(** *** The SELECT statements of [get_messages] *)

(** SQLite folds case for the 26 ASCII letters only. *)
Definition sqlite_lower (c : ascii) : ascii :=
  let n := N_of_ascii c in
  if ((65 <=? n) && (n <=? 90))%N then ascii_of_N (n + 32) else c.

Definition like_char (c d : ascii) : bool :=
  Ascii.eqb (sqlite_lower c) (sqlite_lower d).

(** The engine reads both operands of LIKE as C strings: each ends at
    its first NUL character, whatever follows it. *)
Fixpoint c_str (s : string) : string :=
  match s with
  | EmptyString => EmptyString
  | String c s' => if Ascii.eqb c Ascii.zero then EmptyString else String c (c_str s')
  end.

(** The matching of LIKE with no ESCAPE clause: in the pattern [%] stands
    for any run of characters, [_] for any one character, and every other
    character for itself up to ASCII case. *)
Fixpoint like_match (p s : string) {struct p} : bool :=
  match p with
  | EmptyString =>
      match s with
      | EmptyString => true
      | String _ _ => false
      end
  | String c p' =>
      if Ascii.eqb c "%" then
        (fix any_run (s0 : string) : bool :=
           like_match p' s0 ||
           match s0 with
           | EmptyString => false
           | String _ s1 => any_run s1
           end) s
      else
        match s with
        | EmptyString => false
        | String d s' => (Ascii.eqb c "_" || like_char c d) && like_match p' s'
        end
  end.

(** [like p s] is the SQL expression [s LIKE p] on two TEXT values. *)
Definition like (p s : string) : bool := like_match (c_str p) (c_str s).

(** The conditions that [get_messages] appends, one per filter that is
    given and not empty; [q] is wrapped as [f"%{q}%"]. *)
Definition cond_from (from_filter : option string) : list (Row -> bool) :=
  match from_filter with
  | Some f => if f =? "" then [] else [fun r => from_msisdn r =? f]
  | None => []
  end.

Definition cond_since (since : option string) : list (Row -> bool) :=
  match since with
  | Some s => if s =? "" then [] else [fun r => String.leb s (ts r)]
  | None => []
  end.

Definition cond_q (q : option string) : list (Row -> bool) :=
  match q with
  | Some w =>
      if w =? "" then []
      else [fun r =>
              match text r with
              | Some x => like ("%" ++ w ++ "%")%string x
              | None => false        (* NULL LIKE ? is NULL *)
              end]
  | None => []
  end.

Definition conditions (from_filter since q : option string)
  : list (Row -> bool) :=
  cond_from from_filter ++ cond_since since ++ cond_q q.

(** WHERE c1 AND c2 AND ...; no WHERE clause when the list is empty. *)
Definition where_clause (conds : list (Row -> bool)) (r : Row) : bool :=
  forallb (fun c => c r) conds.

(** ORDER BY ts ASC, message_id ASC. *)
Definition row_leb (a b : Row) : bool :=
  match String.compare (ts a) (ts b) with
  | Lt => true
  | Eq => String.leb (message_id a) (message_id b)
  | Gt => false
  end.

Fixpoint insert_sorted (r : Row) (l : list Row) : list Row :=
  match l with
  | [] => [r]
  | x :: l' => if row_leb r x then r :: l else x :: insert_sorted r l'
  end.

Definition order_by (l : list Row) : list Row :=
  fold_right insert_sorted [] l.

(** LIMIT ? OFFSET ?: a negative LIMIT is no limit, a negative OFFSET is
    no offset. *)
Definition limit_offset {A : Type} (limit offset : Z) (l : list A) : list A :=
  let rest := skipn (Z.to_nat offset) l in
  if (limit <? 0)%Z then rest else firstn (Z.to_nat limit) rest.

(** One dict of the returned list. *)
Record MessageDict : Type := mkMessageDict {
  d_message_id : string;
  d_from : string;
  d_to : string;
  d_ts : string;
  d_text : option string
}.

Definition to_dict (r : Row) : MessageDict :=
  mkMessageDict (message_id r) (from_msisdn r) (to_msisdn r) (ts r) (text r).

(** [Database.get_messages]: the count query, then the page query, as
    the engine answers them once [execute] has bound their parameters.
    The binding itself, which refuses a limit or an offset that is no
    signed 64-bit integer, is [get_messages_call] below.  The filter
    strings are taken within the size limits of the engine (past them
    [execute] raises too, which is not modelled): the statements that
    promise the absence of an error carry these limits as a
    hypothesis. *)
Definition get_messages (db : Database) (limit offset : Z)
    (from_filter since q : option string)
  : result (list MessageDict * Z) :=
  let conds := conditions from_filter since q in
  match db with
  | None => Raise OperationalError
  | Some t =>
      let total := Z.of_nat (List.length (filter (where_clause conds) t)) in
      let rows :=
        limit_offset limit offset (order_by (filter (where_clause conds) t)) in
      Ok (map to_dict rows, total)
  end.

(** [cursor.execute] binds a Python [int] as an SQLite INTEGER, a signed
    64-bit value, and raises OverflowError for any other. *)
Definition fits_int64 (z : Z) : bool :=
  ((- 2 ^ 63 <=? z) && (z <? 2 ^ 63))%Z.

Definition bind_int (z : Z) : result Z :=
  if fits_int64 z then Ok z else Raise OverflowError.

(** The call of [get_messages] with the driver in between.  The count
    query comes first and binds the filter strings only: without the
    table it fails there.  The page query then binds [limit] and
    [offset] as well. *)
Definition get_messages_call (db : Database) (limit offset : Z)
    (from_filter since q : option string)
  : result (list MessageDict * Z) :=
  match db with
  | None => Raise OperationalError
  | Some _ =>
      limit' <- bind_int limit ;;
      offset' <- bind_int offset ;;
      get_messages db limit' offset' from_filter since q
  end.

(** *** The SELECT statements of [get_stats] *)

(** The senders of the table, each once (DISTINCT from_msisdn). *)
Definition distinct_senders (t : Table) : list string :=
  nodup string_dec (map from_msisdn t).

Fixpoint insert_sender (s : string) (l : list string) : list string :=
  match l with
  | [] => [s]
  | x :: l' => if String.leb s x then s :: l else x :: insert_sender s l'
  end.

Definition count_from (t : Table) (s : string) : nat :=
  List.length (filter (fun r => from_msisdn r =? s) t).

(** GROUP BY from_msisdn with COUNT( * ): one group per sender, met in
    ascending sender order (the scan of idx_messages_from). *)
Definition group_by_sender (t : Table) : list (string * nat) :=
  map (fun s => (s, count_from t s))
      (fold_right insert_sender [] (distinct_senders t)).

(** ORDER BY count DESC.  SQL leaves the order of equal counts open; here
    equal counts keep the order in which the groups were met. *)
Fixpoint insert_by_count (g : string * nat) (l : list (string * nat))
  : list (string * nat) :=
  match l with
  | [] => [g]
  | x :: l' =>
      if Nat.leb (snd x) (snd g) then g :: l else x :: insert_by_count g l'
  end.

Definition order_by_count_desc (l : list (string * nat))
  : list (string * nat) :=
  fold_right insert_by_count [] l.

Definition str_min (a b : string) : string := if String.leb a b then a else b.
Definition str_max (a b : string) : string := if String.leb a b then b else a.

(** MIN(ts) and MAX(ts): NULL over no rows. *)
Definition min_ts (t : Table) : option string :=
  match t with
  | [] => None
  | r :: t' => Some (fold_left (fun m x => str_min m (ts x)) t' (ts r))
  end.

Definition max_ts (t : Table) : option string :=
  match t with
  | [] => None
  | r :: t' => Some (fold_left (fun m x => str_max m (ts x)) t' (ts r))
  end.

Record Stats : Type := mkStats {
  total_messages : Z;
  senders_count : Z;
  messages_per_sender : list (string * Z);   (* {"from": .., "count": ..} *)
  first_message_ts : option string;
  last_message_ts : option string
}.

(** [Database.get_stats]: four SELECTs on one connection. *)
Definition get_stats (db : Database) : result Stats :=
  match db with
  | None => Raise OperationalError
  | Some t =>
      Ok (mkStats
            (Z.of_nat (List.length t))
            (Z.of_nat (List.length (distinct_senders t)))
            (map (fun g => (fst g, Z.of_nat (snd g)))
                 (firstn 10 (order_by_count_desc (group_by_sender t))))
            (min_ts t)
            (max_ts t))
  end.

(** *** The payload that [webhook] stores *)

(** A [WebhookMessage] that passed validation: [from_], [to] and [ts] are
    [str], [text] is [Optional[str]]. *)
Record WebhookMessage : Type := mkWebhookMessage {
  wm_message_id : string;
  wm_from : string;
  wm_to : string;
  wm_ts : string;
  wm_text : option string
}.

(** The call [db.insert_message(...)] of [webhook]. *)
Definition store_message (db : Database) (now : string) (m : WebhookMessage)
  : result (bool * bool) * Database :=
  insert_message db now (wm_message_id m)
    (Some (wm_from m)) (Some (wm_to m)) (Some (wm_ts m)) (wm_text m).

(** The row that a first insert of [m] at time [now] writes. *)
Definition row_of (m : WebhookMessage) (now : string) : Row :=
  mkRow (wm_message_id m) (wm_from m) (wm_to m) (wm_ts m) (wm_text m) now.

End Storage.

(** ** app/main.py: the signature check *)

Module Signature.

Definition byte_of_N (n : N) : Byte.byte := byte_of_ascii (ascii_of_N n).

(** [str.encode("utf-8")] on code points below 256: one byte for an ASCII
    character, two for the others. *)
Definition encode_utf8_char (c : ascii) : list Byte.byte :=
  let n := N_of_ascii c in
  if (n <? 128)%N then [byte_of_N n]
  else [byte_of_N (192 + N.shiftr n 6); byte_of_N (128 + N.land n 63)].

Fixpoint encode_utf8 (s : string) : list Byte.byte :=
  match s with
  | EmptyString => []
  | String c s' => encode_utf8_char c ++ encode_utf8 s'
  end.

Definition is_ascii_char (c : ascii) : bool := (N_of_ascii c <? 128)%N.

Fixpoint is_ascii (s : string) : bool :=
  match s with
  | EmptyString => true
  | String c s' => is_ascii_char c && is_ascii s'
  end.

(** [hmac.compare_digest] on two [str]: both must be ASCII, or it raises
    TypeError. *)
Definition compare_digest (a b : string) : result bool :=
  if is_ascii a && is_ascii b then Ok (a =? b) else Raise TypeError.

(** What a request to POST /webhook gets from the signature gate. *)
Inductive gate : Type :=
| Unauthorized   (* HTTPException(401, "invalid signature") *)
| Authenticated. (* the handler goes on to parse the payload *)

Section Verify.

(** [hmac.new(key, msg, hashlib.sha256).hexdigest()], from the standard
    library: a key and a message, as bytes, to a [str]. *)
Variable hmac_sha256_hexdigest : list Byte.byte -> list Byte.byte -> string.

(** [verify_signature]. *)
Definition verify_signature (secret : string) (body : list Byte.byte)
    (signature : string) : result bool :=
  let expected := hmac_sha256_hexdigest (encode_utf8 secret) body in
  compare_digest expected signature.

(** The signature gate of [webhook] (the two [if]s before the payload is
    parsed); [webhook_secret] is [settings.webhook_secret], [x_signature]
    the X-Signature header. *)
Definition webhook_gate (webhook_secret x_signature : option string)
    (raw_body : list Byte.byte) : result gate :=
  if negb (truthy x_signature) || negb (truthy webhook_secret)
  then Ok Unauthorized
  else
    match webhook_secret, x_signature with
    | Some secret, Some sig =>
        ok <- verify_signature secret raw_body sig ;;
        if negb ok then Ok Unauthorized else Ok Authenticated
    | _, _ => Ok Unauthorized      (* not reached: both are truthy *)
    end.

End Verify.

End Signature.

(** ** app/metrics.py: the latency histogram *)

Module Metrics.

(** A bucket boundary: one of the ints of [_latency_buckets], or
    [float("inf")]. *)
Inductive bucket : Type :=
| IntB (n : Z)
| InfB.

(** [self._latency_buckets]; set in [__init__], never assigned again. *)
Definition latency_buckets : list bucket :=
  [IntB 10; IntB 25; IntB 50; IntB 100; IntB 250; IntB 500; IntB 1000;
   IntB 2500; IntB 5000; InfB].

(** The boundary as a float; exact for an int from 0 up to 2^53. *)
Definition bucket_float (b : bucket) : float :=
  match b with
  | IntB n => PrimFloat.of_uint63 (Uint63.of_Z n)
  | InfB => infinity
  end.

(** [latency_ms <= bucket]. *)
Definition obs_le (latency_ms : float) (b : bucket) : bool :=
  PrimFloat.leb latency_ms (bucket_float b).

(** [b <= bucket] and [b == bucket] on two boundaries. *)
Definition bucket_le (a b : bucket) : bool :=
  match a, b with
  | IntB x, IntB y => (x <=? y)%Z
  | IntB _, InfB => true
  | InfB, IntB _ => false
  | InfB, InfB => true
  end.

Definition bucket_eqb (a b : bucket) : bool :=
  match a, b with
  | IntB x, IntB y => (x =? y)%Z
  | InfB, InfB => true
  | _, _ => false
  end.

(** A dict from boundaries to counts, in insertion order. *)
Definition counts_dict : Type := list (bucket * nat).

(** [d[k]]. *)
Fixpoint dict_get (d : counts_dict) (k : bucket) : result nat :=
  match d with
  | [] => Raise KeyError
  | (k', v) :: d' => if bucket_eqb k' k then Ok v else dict_get d' k
  end.

(** [d[k] += 1]. *)
Fixpoint dict_incr (d : counts_dict) (k : bucket) : result counts_dict :=
  match d with
  | [] => Raise KeyError
  | (k', v) :: d' =>
      if bucket_eqb k' k then Ok ((k', S v) :: d')
      else d'' <- dict_incr d' k ;; Ok ((k', v) :: d'')
  end.

(** The histogram part of a [MetricsCollector]. *)
Record collector : Type := mkCollector {
  latency_counts : counts_dict;
  latency_sum : float;
  latency_count : nat
}.

(** [__init__]. *)
Definition init : collector :=
  mkCollector (map (fun b => (b, 0)) latency_buckets) PrimFloat.zero 0.

(** The [for] loop of [observe_latency] over the buckets that are left. *)
Fixpoint observe_buckets (latency_ms : float) (bs : list bucket)
    (d : counts_dict) : result counts_dict :=
  match bs with
  | [] => Ok d
  | b :: bs' =>
      if obs_le latency_ms b
      then d' <- dict_incr d b ;; observe_buckets latency_ms bs' d'
      else observe_buckets latency_ms bs' d
  end.

(** [observe_latency], under the lock. *)
Definition observe_latency (m : collector) (latency_ms : float)
  : result collector :=
  d <- observe_buckets latency_ms latency_buckets (latency_counts m) ;;
  Ok (mkCollector d
        (PrimFloat.add (latency_sum m) latency_ms)
        (S (latency_count m))).

(** A run of observations, one call of [observe_latency] each. *)
Fixpoint observe_all (m : collector) (obs : list float) : result collector :=
  match obs with
  | [] => Ok m
  | x :: obs' => m' <- observe_latency m x ;; observe_all m' obs'
  end.

(** [sum(self._latency_counts[b] for b in bs)]. *)
Fixpoint sum_counts (d : counts_dict) (bs : list bucket) : result nat :=
  match bs with
  | [] => Ok 0
  | b :: bs' => v <- dict_get d b ;; w <- sum_counts d bs' ;; Ok (v + w)
  end.

(** The label: ["+Inf" if bucket == float("inf") else str(int(bucket))]. *)
Definition le_label (b : bucket) : string :=
  match b with
  | InfB => "+Inf"
  | IntB n => NilZero.string_of_int (Z.to_int n)
  end.

(** The second loop of [export] (the first only computes a value that the
    second overwrites): one sample per bucket, its [le] label and the
    value printed after it. *)
Fixpoint export_buckets (d : counts_dict) (bs : list bucket)
  : result (list (string * nat)) :=
  match bs with
  | [] => Ok []
  | bucket :: bs' =>
      cumulative <-
        sum_counts d (filter (fun b => bucket_le b bucket) latency_buckets) ;;
      rest <- export_buckets d bs' ;;
      Ok ((le_label bucket, cumulative) :: rest)
  end.

(** What [export] prints of the histogram: the request_latency_ms_bucket
    samples and request_latency_ms_count, and, as [h_sum], the running
    sum that the line of request_latency_ms_sum formats with two
    decimals (the formatting itself is not modelled). *)
Record histogram : Type := mkHistogram {
  h_buckets : list (string * nat);
  h_sum : float;
  h_count : nat
}.

Definition export (m : collector) : result histogram :=
  samples <- export_buckets (latency_counts m) latency_buckets ;;
  Ok (mkHistogram samples (latency_sum m) (latency_count m)).

End Metrics.

(** ** The notions in which the properties are stated

    None of the definitions below is code of the repository: they are the
    invariants, the sample data and the specification-side functions that
    the statements of the properties use. *)

Module StorageSpec.
Import Storage.

(** The keys of a table are pairwise distinct: the PRIMARY KEY invariant. *)
Definition unique_keys (t : Table) : Prop := NoDup (map message_id t).

Definition rows_with_key (t : Table) (k : string) : list Row :=
  filter (fun r => message_id r =? k) t.

(** A small store for the examples. *)
Definition row1 : Row :=
  mkRow "m1" "+15550001111" "+15550002222" "2025-01-15T10:00:00Z"
    (Some "Hello World") "2025-01-15T10:00:01Z".
Definition row2 : Row :=
  mkRow "m2" "+15550003333" "+15550002222" "2025-01-15T09:00:00Z"
    None "2025-01-15T10:00:02Z".
Definition row3 : Row :=
  mkRow "m0" "+15550001111" "+15550002222" "2025-01-15T10:00:00Z"
    (Some "abc") "2025-01-15T10:00:03Z".
Definition sample_table : Table := [row1; row2; row3].

Definition sample_payload : WebhookMessage :=
  mkWebhookMessage "m1" "+15550001111" "+15550002222"
    "2025-01-15T10:00:00Z" (Some "hi").

Definition row_le (a b : Row) : Prop := row_leb a b = true.

(** Ascending by the pair (ts, message_id), read off the returned dicts. *)
Definition key_le (a b : MessageDict) : Prop :=
  String.ltb (d_ts a) (d_ts b) = true \/
  (d_ts a = d_ts b /\ String.leb (d_message_id a) (d_message_id b) = true).

(** The rows that pass the filters, and their number: what the count query
    returns. *)
Definition matching (t : Table) (f s q : option string) : list Row :=
  filter (where_clause (conditions f s q)) t.

Definition total_matching (t : Table) (f s q : option string) : Z :=
  Z.of_nat (List.length (matching t f s q)).

(** The size limits of the engine on the strings that [get_messages]
    binds: a string holds at most SQLITE_MAX_LENGTH bytes of UTF-8
    (1000000000 by default) and a LIKE pattern at most
    SQLITE_MAX_LIKE_PATTERN_LENGTH (50000 by default). *)

Fixpoint utf8_length (s : string) : N :=
  match s with
  | EmptyString => 0%N
  | String c s' =>
      ((if N_of_ascii c <? 128 then 1 else 2) + utf8_length s')%N
  end.

Definition text_fits (bound : N) (o : option string) : bool :=
  match o with
  | Some v => (utf8_length v <=? bound)%N
  | None => true
  end.

Definition texts_within_limits (f s q : option string) : bool :=
  text_fits 1000000000 f && text_fits 1000000000 s
  && text_fits 49998 q.      (* the pattern is q between two percent signs *)

(** No NUL character in a string. *)
Fixpoint no_nul (s : string) : bool :=
  match s with
  | EmptyString => true
  | String c s' => negb (Ascii.eqb c Ascii.zero) && no_nul s'
  end.

(** Case-insensitive substring match, as the specification words the text
    filter: [q] occurs in [x] once both are folded to lower case (ASCII
    letters, the folding the engine knows). *)
Fixpoint fold_case (s : string) : string :=
  match s with
  | EmptyString => EmptyString
  | String c s' => String (sqlite_lower c) (fold_case s')
  end.

Definition contains_nocase (q x : string) : Prop :=
  exists pre post, fold_case x = (pre ++ fold_case q ++ post)%string.

(** The same, decided. *)
Fixpoint prefix_nocase (q x : string) : bool :=
  match q, x with
  | EmptyString, _ => true
  | String _ _, EmptyString => false
  | String c q', String d x' => like_char c d && prefix_nocase q' x'
  end.

Fixpoint icontains (q x : string) : bool :=
  prefix_nocase q x ||
  match x with
  | EmptyString => false
  | String _ x' => icontains q x'
  end.

(** [q] has neither of LIKE's wildcards. *)
Fixpoint no_wildcard (q : string) : bool :=
  match q with
  | EmptyString => true
  | String c q' =>
      negb (Ascii.eqb c "%") && negb (Ascii.eqb c "_") && no_wildcard q'
  end.

(** The filters as the specification words them: sender equal to
    [from_filter], [ts >= since] as strings, [q] a case-insensitive
    substring of a text that is not NULL; a filter that is absent or empty
    lets every row pass. *)
Definition from_ok (f : option string) (r : Row) : bool :=
  if truthy f then
    match f with Some v => from_msisdn r =? v | None => true end
  else true.

Definition since_ok (s : option string) (r : Row) : bool :=
  if truthy s then
    match s with Some v => String.leb v (ts r) | None => true end
  else true.

Definition text_ok (q : option string) (r : Row) : bool :=
  if truthy q then
    match q, text r with
    | Some w, Some x => icontains w x
    | Some _, None => false
    | None, _ => true
    end
  else true.

(** The sum of the counts of a messages_per_sender list. *)
Definition counts_sum (l : list (string * Z)) : Z :=
  fold_right (fun g acc => (snd g + acc)%Z) 0%Z l.

Definition group_total (l : list (string * nat)) : nat :=
  list_sum (map snd l).

(** Eleven messages from eleven senders. *)
Definition eleven_senders : Table :=
  map (fun k => mkRow ("m" ++ k) ("+1555000" ++ k) "+14155550100"
                  "2025-01-15T10:00:00Z" None "2025-01-15T10:00:01Z")
      ["00"; "01"; "02"; "03"; "04"; "05"; "06"; "07"; "08"; "09"; "10"]%string.

End StorageSpec.

Module SignatureSpec.
Import Signature.

(** U+00E9, a character that is not ASCII. *)
Definition e_acute : ascii := ascii_of_N 233.

End SignatureSpec.

Module MetricsSpec.
Import Metrics.

(** The keys of a dict. *)
Definition keys (d : counts_dict) : list bucket := map fst d.

(** The buckets among [bs] that an observation is counted under and that
    are the bucket [k]. *)
Definition hits (latency_ms : float) (bs : list bucket) (k : bucket) : nat :=
  List.length (filter (fun b => obs_le latency_ms b && bucket_eqb b k) bs).

(** The number of observations that are [<=] the boundary [b]. *)
Definition observed_le (obs : list float) (b : bucket) : nat :=
  List.length (filter (fun o => obs_le o b) obs).

(** The dict of a collector has the configured boundaries as its keys. *)
Definition well_keyed (m : collector) : Prop :=
  keys (latency_counts m) = latency_buckets.

End MetricsSpec.

(** ** app/metrics.py: the counters, and the middleware that feeds them *)

Module Counters.
Import Metrics.

(** A [defaultdict(int)] keyed by [str], in insertion order. *)
Definition counter : Type := list (string * nat).

(** The count stored under [k]; a key that was never written has none,
    which reads as 0. *)
Fixpoint dd_get (d : counter) (k : string) : nat :=
  match d with
  | [] => 0
  | (k', v) :: d' => if k' =? k then v else dd_get d' k
  end.

(** [d[k] += 1]: a missing key starts from [int()], which is 0. *)
Fixpoint dd_incr (d : counter) (k : string) : counter :=
  match d with
  | [] => [(k, 1)]
  | (k', v) :: d' =>
      if k' =? k then (k', S v) :: d' else (k', v) :: dd_incr d' k
  end.

(** [str(n)] for an int. *)
Definition str_of_int (n : Z) : string := NilZero.string_of_int (Z.to_int n).

(** [f'{path}|{status}'], the key of [inc_http_request]. *)
Definition http_key (path : string) (status : Z) : string :=
  (path ++ "|" ++ str_of_int status)%string.

(** The whole collector: the two counters and the histogram part. *)
Record MetricsCollector : Type := mkMetricsCollector {
  http_requests : counter;
  webhook_requests : counter;
  latency : collector
}.

(** [MetricsCollector.__init__]. *)
Definition new_collector : MetricsCollector :=
  mkMetricsCollector [] [] init.


(** [inc_webhook_request]. *)
Definition inc_webhook_request (m : MetricsCollector) (result_ : string)
  : MetricsCollector :=
  mkMetricsCollector (http_requests m)
    (dd_incr (webhook_requests m) result_) (latency m).





(** [key.rsplit("|", 1)] unpacked into two names: the text before the
    last bar and the text after it; [None] when there is no bar and the
    unpacking raises ValueError. *)
Fixpoint rsplit_bar (key : string) : option (string * string) :=
  match key with
  | EmptyString => None
  | String c rest =>
      match rsplit_bar rest with
      | Some (a, b) => Some (String c a, b)
      | None => if Ascii.eqb c "|" then Some (EmptyString, rest) else None
      end
  end.







End Counters.

Module CountersSpec.
Import Counters.




(** No bar in a string. *)
Fixpoint no_bar (s : string) : bool :=
  match s with
  | EmptyString => true
  | String c s' => negb (Ascii.eqb c "|") && no_bar s'
  end.

End CountersSpec.

(** ** app/config.py *)

Module Config.

(** [s.replace(old, "")] for an [old] that is not empty: the occurrences of
    [old] are dropped from left to right, each one starting after the end
    of the one before.  [skip] counts the characters of a found occurrence
    that are still to drop. *)
Fixpoint remove_from (old : string) (skip : nat) (s : string) : string :=
  match s with
  | EmptyString => EmptyString
  | String c s' =>
      match skip with
      | S k => remove_from old k s'
      | O =>
          if String.prefix old s
          then remove_from old (Nat.pred (String.length old)) s'
          else String c (remove_from old 0 s')
      end
  end.

Definition remove_all (old s : string) : string := remove_from old 0 s.

(** [Settings]: the three values read from the environment. *)
Record Settings : Type := mkSettings {
  database_url : string;
  log_level : string;
  webhook_secret : option string
}.

(** [Settings.db_path]. *)
Definition db_path (st : Settings) : string :=
  if String.prefix "sqlite:///" (database_url st)
  then remove_all "sqlite:///" (database_url st)
  else "/data/app.db".

(** [Settings.is_configured]. *)
Definition is_configured (st : Settings) : bool := truthy (webhook_secret st).

End Config.

(** ** app/models.py: the E.164 pattern *)

Module Models.

(** A [str] is here the list of its code points: [\d] in a [str] pattern
    matches every character of the Unicode category Nd (the decimal
    digits of all scripts), far beyond Latin-1.  The category is a table
    of the interpreter's Unicode database, [unicode_digit] below. *)
Definition str : Type := list N.

(** The plus sign and the line feed. *)
Definition plus_sign : N := 43.
Definition line_feed : N := 10.

Section Pattern.

Variable unicode_digit : N -> bool.

(** The rest of [\d+$] once a digit has been read: more digits, then the
    end of the string, or a line feed that is the last character ([$]
    matches before it too). *)
Fixpoint digits_to_end (s : str) : bool :=
  match s with
  | nil => true
  | c :: s' =>
      if unicode_digit c then digits_to_end s'
      else (c =? line_feed)%N && match s' with nil => true | _ => false end
  end.

(** [E164_PATTERN.match(v)] is not [None], for [r"^\+\d+$"] and a [v]
    that is a [str]. *)
Definition e164_match (v : str) : bool :=
  match v with
  | c :: d :: s' => (c =? plus_sign)%N && unicode_digit d && digits_to_end s'
  | _ => false
  end.

End Pattern.

End Models.

(** ** app/main.py: the handlers *)

Module Handlers.
Import Storage Signature Counters.

(** What [webhook] leaves on [request.state]. *)
Record request_state : Type := mkRequestState {
  webhook_result : option string;
  webhook_message_id : option string;
  webhook_dup : option bool
}.

(** A call of [webhook] when it is over: the status of the response, or
    the exception that escapes the handler; [request.state]; the metrics
    and the database afterwards. *)
Record webhook_done : Type := mkWebhookDone {
  response : result Z;
  state : request_state;
  metrics_after : MetricsCollector;
  db_after : Database
}.

Section Webhook.

(** [hmac.new(...).hexdigest()], as in [Signature]. *)
Variable hmac_sha256_hexdigest : list Byte.byte -> list Byte.byte -> string.

(** [json.loads(raw_body)] followed by [WebhookMessage( **payload )]:
    the validated message, or [None] when either raises. *)
Variable parse : list Byte.byte -> option WebhookMessage.

(** [webhook].  An HTTPException becomes the response with its status. *)
Definition webhook (webhook_secret : option string) (m : MetricsCollector)
    (db : Database) (now : string) (x_signature : option string)
    (raw_body : list Byte.byte) : webhook_done :=
  match webhook_gate hmac_sha256_hexdigest webhook_secret x_signature raw_body with
  | Raise e => mkWebhookDone (Raise e) (mkRequestState None None None) m db
  | Ok Unauthorized =>
      mkWebhookDone (Ok 401%Z)
        (mkRequestState (Some "invalid_signature") None None)
        (inc_webhook_request m "invalid_signature") db
  | Ok Authenticated =>
      match parse raw_body with
      | None =>
          mkWebhookDone (Ok 422%Z)
            (mkRequestState (Some "validation_error") None None)
            (inc_webhook_request m "validation_error") db
      | Some message =>
          match store_message db now message with
          | (Raise e, db') =>
              mkWebhookDone (Raise e)
                (mkRequestState None (Some (wm_message_id message)) None) m db'
          | (Ok (_, is_duplicate), db') =>
              if is_duplicate
              then mkWebhookDone (Ok 200%Z)
                     (mkRequestState (Some "duplicate")
                        (Some (wm_message_id message)) (Some true))
                     (inc_webhook_request m "duplicate") db'
              else mkWebhookDone (Ok 200%Z)
                     (mkRequestState (Some "created")
                        (Some (wm_message_id message)) (Some false))
                     (inc_webhook_request m "created") db'
          end
      end
  end.

End Webhook.



(** [liveness]. *)
Definition liveness : Z * string := (200%Z, "ok").

(** The body of a 200 answer of [list_messages]. *)
Record MessagesResponse : Type := mkMessagesResponse {
  data : list MessageDict;
  total : Z;
  limit_ : Z;
  offset_ : Z
}.

(** [list_messages].  A query parameter that is absent is [None] and takes
    its default; [Query(ge=1, le=100)] and [Query(ge=0)] answer 422 before
    the body runs.  The result is the status with the body of a 200.
    [Query(ge=0)] sets no upper bound: an offset that is no signed
    64-bit integer goes to the store, whose call raises. *)
Definition list_messages (db : Database) (limit offset : option Z)
    (from_ since q : option string) : result (Z * option MessagesResponse) :=
  let limit := match limit with Some l => l | None => 50%Z end in
  let offset := match offset with Some o => o | None => 0%Z end in
  if negb ((1 <=? limit) && (limit <=? 100))%Z then Ok (422%Z, None)
  else if negb (0 <=? offset)%Z then Ok (422%Z, None)
  else
    r <- get_messages_call db limit offset from_ since q ;;
    Ok (200%Z, Some (mkMessagesResponse (fst r) (snd r) limit offset)).

End Handlers.

(** ** app/logging_utils.py *)

Module Logging.

(** The values that go into a log entry. *)
Inductive value : Type :=
| VStr (s : string)
| VInt (n : Z)
| VFloat (x : float)
| VBool (b : bool).

(** [RequestLogContext]. *)
Record RequestLogContext : Type := mkContext {
  request_id : string;
  method : string;
  path : string;
  status : option Z;
  latency_ms : option float;
  message_id : option string;
  dup : option bool;
  result_ : option string
}.

(** One more item of a dict when the value is not [None]. *)
Definition item {A : Type} (key : string) (wrap : A -> value) (o : option A)
  : list (string * value) :=
  match o with
  | Some v => [(key, wrap v)]
  | None => []
  end.

(** [RequestLogContext.to_dict], as its items in insertion order. *)
Definition to_dict (ctx : RequestLogContext) : list (string * value) :=
  [("request_id", VStr (request_id ctx)); ("method", VStr (method ctx));
   ("path", VStr (path ctx))]
  ++ item "status" VInt (status ctx)
  ++ item "latency_ms" VFloat (latency_ms ctx)
  ++ item "message_id" VStr (message_id ctx)
  ++ item "dup" VBool (dup ctx)
  ++ item "result" VStr (result_ ctx).

(** A [LogRecord]: its level name, its message, and the attributes set
    on it after [makeRecord] (none of the attributes that [makeRecord]
    itself sets has a name that [format] asks for). *)
Record LogRecord : Type := mkLogRecord {
  levelname : string;
  msg : string;
  attributes : list (string * value)
}.

(** [setattr(record, key, value)]. *)
Fixpoint set_attribute (attrs : list (string * value)) (key : string) (v : value)
  : list (string * value) :=
  match attrs with
  | [] => [(key, v)]
  | (k, w) :: rest =>
      if k =? key then (k, v) :: rest else (k, w) :: set_attribute rest key v
  end.

(** [getattr(record, key)] when [hasattr(record, key)]. *)
Fixpoint get_attribute (attrs : list (string * value)) (key : string)
  : option value :=
  match attrs with
  | [] => None
  | (k, w) :: rest => if k =? key then Some w else get_attribute rest key
  end.

(** The record that [log_request] hands to the logger: [makeRecord], then
    one [setattr] per item of [ctx.to_dict()]. *)
Definition log_request (level message : string) (ctx : RequestLogContext)
  : LogRecord :=
  mkLogRecord level message
    (fold_left (fun attrs kv => set_attribute attrs (fst kv) (snd kv))
               (to_dict ctx) []).

(** One more item of the entry when the record has the attribute. *)
Definition entry_item (r : LogRecord) (key : string) : list (string * value) :=
  match get_attribute (attributes r) key with
  | Some v => [(key, v)]
  | None => []
  end.

(** The dict that [JSONFormatter.format] builds and dumps, for a record
    without exception info; [now] is the clock reading. *)
Definition format_entry (now : string) (r : LogRecord) : list (string * value) :=
  [("ts", VStr now); ("level", VStr (levelname r)); ("message", VStr (msg r))]
  ++ entry_item r "request_id"
  ++ entry_item r "method"
  ++ entry_item r "path"
  ++ entry_item r "status"
  ++ entry_item r "latency_ms"
  ++ entry_item r "message_id"
  ++ entry_item r "dup"
  ++ entry_item r "result".

End Logging.

Module MoreSpec.
Import Config Models.

(** [old] occurs somewhere in [s]. *)
Fixpoint occurs (old s : string) : bool :=
  String.prefix old s ||
  match s with
  | EmptyString => false
  | String _ s' => occurs old s'
  end.

(** Every character of [s] is one that [\d] matches. *)
Definition all_digits (unicode_digit : N -> bool) (s : str) : bool :=
  forallb unicode_digit s.

(** The line feed, as a string. *)
Definition newline : str := line_feed :: nil.

End MoreSpec.

Module StorageMoreSpec.
Import Storage StorageSpec.

(** The whole answer of [get_messages] on an initialised store: the page
    asked with a limit as large as the table and no offset. *)
Definition listing (t : Table) (f s q : option string) : list MessageDict :=
  match get_messages (Some t) (Z.of_nat (List.length t)) 0 f s q with
  | Ok (items, _) => items
  | Raise _ => []
  end.

(** The dict that [get_messages] returns for a stored payload. *)
Definition dict_of (m : WebhookMessage) : MessageDict :=
  mkMessageDict (wm_message_id m) (wm_from m) (wm_to m) (wm_ts m) (wm_text m).

(** Descending by count, as ORDER BY count DESC asks. *)
Definition count_ge (a b : string * Z) : Prop := (snd b <= snd a)%Z.

End StorageMoreSpec.

(** * Properties *)

(** An insertion into a list is a permutation of the list with the new
    element in front: the step shared by the three insertion sorts. *)
Ltac insertion_perm l :=
  let x := fresh "x" in
  let IH := fresh "IH" in
  induction l as [|x l IH]; simpl;
  [ reflexivity
  | match goal with
    | |- context [if ?c then _ else _] => destruct c
    end;
    [ reflexivity | rewrite IH; apply perm_swap ] ].

(** ** Order on [str] *)

Section StringOrder.

Lemma ascii_compare_refl (c : ascii) : Ascii.compare c c = Eq.
Proof. unfold Ascii.compare. apply N.compare_refl. Qed.

Lemma string_compare_refl (s : string) : String.compare s s = Eq.
Proof.
  induction s as [|c s IH]; simpl; [reflexivity|].
  now rewrite ascii_compare_refl.
Qed.

Lemma ascii_compare_lt_trans (a b c : ascii) :
  Ascii.compare a b = Lt -> Ascii.compare b c = Lt -> Ascii.compare a c = Lt.
Proof.
  unfold Ascii.compare. rewrite !N.compare_lt_iff. lia.
Qed.

Lemma string_compare_lt_trans (a b c : string) :
  String.compare a b = Lt -> String.compare b c = Lt -> String.compare a c = Lt.
Proof.
  revert b c. induction a as [|x a IH]; intros [|y b] [|z c]; simpl;
    try discriminate; try reflexivity.
  destruct (Ascii.compare x y) eqn:Hxy; try discriminate.
  - apply Ascii.compare_eq_iff in Hxy. subst y.
    destruct (Ascii.compare x z); try discriminate; eauto.
  - intros _. destruct (Ascii.compare y z) eqn:Hyz; try discriminate.
    + apply Ascii.compare_eq_iff in Hyz. subst z. now rewrite Hxy.
    + intros _. now rewrite (ascii_compare_lt_trans x y z).
Qed.

Lemma string_leb_refl (s : string) : String.leb s s = true.
Proof. unfold String.leb. now rewrite string_compare_refl. Qed.

Lemma string_leb_trans (a b c : string) :
  String.leb a b = true -> String.leb b c = true -> String.leb a c = true.
Proof.
  unfold String.leb.
  destruct (String.compare a b) eqn:Hab; try discriminate;
    destruct (String.compare b c) eqn:Hbc; try discriminate; intros _ _.
  - apply String.compare_eq_iff in Hab, Hbc. subst. now rewrite string_compare_refl.
  - apply String.compare_eq_iff in Hab. subst. now rewrite Hbc.
  - apply String.compare_eq_iff in Hbc. subst. now rewrite Hab.
  - now rewrite (string_compare_lt_trans a b c).
Qed.

End StringOrder.

(** ** The message store *)

Module StorageFacts.
Import Storage StorageSpec.

(** *** INSERT *)

Lemma has_key_In (t : Table) (k : string) :
  has_key t k = true <-> In k (map message_id t).
Proof.
  unfold has_key. rewrite existsb_exists, in_map_iff.
  split; intros [r [H1 H2]]; exists r.
  - apply String.eqb_eq in H2. tauto.
  - rewrite H1. split; [assumption | apply String.eqb_refl].
Qed.

Lemma has_key_false_rows (t : Table) (k : string) :
  has_key t k = false -> rows_with_key t k = [].
Proof.
  unfold has_key, rows_with_key. induction t as [|r t IH]; simpl; [reflexivity|].
  intros H. apply orb_false_iff in H as [H1 H2]. rewrite H1. auto.
Qed.

Lemma unique_key_one_row (t : Table) (k : string) :
  unique_keys t -> has_key t k = true ->
  exists r, rows_with_key t k = [r].
Proof.
  unfold unique_keys, rows_with_key. induction t as [|x t IH]; simpl.
  - discriminate.
  - intros Hnd Hk. inversion Hnd as [|? ? Hx Hnd']; subst.
    destruct (message_id x =? k) eqn:E.
    + apply String.eqb_eq in E. subst k. exists x. f_equal.
      apply has_key_false_rows. destruct (has_key t (message_id x)) eqn:F; [|reflexivity].
      apply has_key_In in F. contradiction.
    + simpl in Hk. unfold has_key in IH. auto.
Qed.

Lemma sample_table_unique : unique_keys sample_table.
Proof.
  unfold unique_keys. simpl.
  repeat constructor; simpl; intuition discriminate.
Qed.

(** The invariant holds at the start and every insert keeps it. *)
Lemma init_schema_unique : unique_keys [].
Proof. constructor. Qed.

Lemma insert_message_unique (t : Table) now mid f d s x r t' :
  unique_keys t ->
  insert_message (Some t) now mid f d s x = (r, Some t') ->
  unique_keys t'.
Proof.
  unfold insert_message, execute_insert, unique_keys. intros Hnd.
  destruct f, d, s; try (intros H; injection H as _ <-; exact Hnd).
  destruct (has_key t mid) eqn:E; intros H; injection H as _ <-; [exact Hnd|].
  rewrite map_app. simpl.
  apply (Permutation_NoDup (Permutation_cons_append (map message_id t) mid)).
  constructor; [|exact Hnd].
  intros Hin. apply has_key_In in Hin. congruence.
Qed.

(** C1. Idempotent insert: on a store whose keys are distinct, inserting a
    message [P] twice leaves exactly one row keyed by [P]'s message_id.
    The first call reports is_duplicate = false exactly when the key was
    not stored yet, and then appends [P]'s row; the second call returns
    normally, reports is_duplicate = true and leaves the whole store, so
    every field of the existing row, as it was. *)
Theorem insert_message_idempotent :
  forall (t : Table) (now1 now2 : string) (P : WebhookMessage),
    unique_keys t ->
    let first := store_message (Some t) now1 P in
    let second := store_message (snd first) now2 P in
    fst first = Ok (true, has_key t (wm_message_id P)) /\
    fst second = Ok (true, true) /\
    snd second = snd first /\
    exists t1 r,
      snd first = Some t1 /\
      rows_with_key t1 (wm_message_id P) = [r] /\
      (has_key t (wm_message_id P) = false ->
       t1 = t ++ [row_of P now1] /\ r = row_of P now1).
Proof.
  intros t now1 now2 P Hnd. unfold store_message, insert_message, execute_insert.
  destruct (has_key t (wm_message_id P)) eqn:E; cbn [fst snd].
  - rewrite E. repeat split.
    destruct (unique_key_one_row t _ Hnd E) as [r Hr].
    exists t, r. repeat split; [assumption | discriminate | discriminate].
  - assert (K : has_key (t ++ [row_of P now1]) (wm_message_id P) = true).
    { unfold has_key. rewrite existsb_app. simpl. rewrite String.eqb_refl.
      now rewrite orb_true_r. }
    fold (row_of P now1). rewrite K. repeat split.
    exists (t ++ [row_of P now1]), (row_of P now1). repeat split.
    unfold rows_with_key. rewrite filter_app. fold (rows_with_key t (wm_message_id P)).
    rewrite (has_key_false_rows _ _ E). simpl. now rewrite String.eqb_refl.
Qed.

Lemma insert_message_idempotent_witness :
  let first :=
    store_message (init_schema None) "2025-01-15T10:00:01Z" sample_payload in
  let second := store_message (snd first) "2025-01-15T10:00:02Z" sample_payload in
  fst first = Ok (true, false) /\
  fst second = Ok (true, true) /\
  snd second = snd first /\
  exists t1 r,
    snd first = Some t1 /\
    rows_with_key t1 "m1" = [r] /\
    (false = false ->
     t1 = [] ++ [row_of sample_payload "2025-01-15T10:00:01Z"] /\
     r = row_of sample_payload "2025-01-15T10:00:01Z").
Proof.
  exact (insert_message_idempotent [] "2025-01-15T10:00:01Z"
           "2025-01-15T10:00:02Z" sample_payload init_schema_unique).
Defined.

(** C10. Every IntegrityError is reported as a duplicate.  An insert
    whose from_msisdn, to_msisdn or ts is NULL breaks a NOT NULL
    constraint: the INSERT raises IntegrityError, and [insert_message]
    returns (success = true, is_duplicate = true) and stores nothing,
    whether or not the message_id is already stored.  The same holds for
    an IntegrityError of any cause. *)
Theorem insert_message_null_reported_duplicate :
  forall (t : Table) (now mid : string) (f d s x : option string),
    f = None \/ d = None \/ s = None ->
    execute_insert (Some t) mid f d s x now = Raise IntegrityError /\
    insert_message (Some t) now mid f d s x = (Ok (true, true), Some t) /\
    forall db' now' mid' f' d' s' x',
      execute_insert db' mid' f' d' s' x' now' = Raise IntegrityError ->
      insert_message db' now' mid' f' d' s' x' = (Ok (true, true), db').
Proof.
  intros t now mid f d s x H.
  assert (G : forall db' now' mid' f' d' s' x',
             execute_insert db' mid' f' d' s' x' now' = Raise IntegrityError ->
             insert_message db' now' mid' f' d' s' x' = (Ok (true, true), db')).
  { intros db' now' mid' f' d' s' x' E. unfold insert_message. now rewrite E. }
  assert (E : execute_insert (Some t) mid f d s x now = Raise IntegrityError).
  { unfold execute_insert.
    destruct H as [-> | [-> | ->]]; [| destruct f | destruct f, d]; reflexivity. }
  split; [exact E|]. split; [now apply G | exact G].
Qed.

Lemma insert_message_null_reported_duplicate_witness :
  has_key [] "m1" = false /\
  execute_insert (Some []) "m1"
    None (Some "+15550002222") (Some "2025-01-15T10:00:00Z") (Some "hi")
    "2025-01-15T10:00:01Z"
  = Raise IntegrityError /\
  insert_message (Some []) "2025-01-15T10:00:01Z" "m1"
    None (Some "+15550002222") (Some "2025-01-15T10:00:00Z") (Some "hi")
  = (Ok (true, true), Some []).
Proof.
  split; [reflexivity|].
  destruct (insert_message_null_reported_duplicate [] "2025-01-15T10:00:01Z" "m1"
              None (Some "+15550002222") (Some "2025-01-15T10:00:00Z") (Some "hi"))
    as [E [I _]].
  - left. reflexivity.
  - split; [exact E | exact I].
Defined.

(** *** ORDER BY *)

Lemma row_leb_total (a b : Row) : row_leb a b = false -> row_leb b a = true.
Proof.
  unfold row_leb. rewrite (String.compare_antisym (ts a) (ts b)).
  destruct (String.compare (ts b) (ts a)); simpl; try discriminate; auto.
  intros H. destruct (String.leb_total (message_id a) (message_id b)); congruence.
Qed.

Lemma row_leb_trans (a b c : Row) :
  row_leb a b = true -> row_leb b c = true -> row_leb a c = true.
Proof.
  unfold row_leb.
  destruct (String.compare (ts a) (ts b)) eqn:Hab; try discriminate;
    destruct (String.compare (ts b) (ts c)) eqn:Hbc; try discriminate.
  - apply String.compare_eq_iff in Hab, Hbc. rewrite Hab, Hbc, string_compare_refl.
    apply string_leb_trans.
  - apply String.compare_eq_iff in Hab. rewrite Hab, Hbc. reflexivity.
  - apply String.compare_eq_iff in Hbc. rewrite <- Hbc, Hab. reflexivity.
  - rewrite (string_compare_lt_trans _ _ _ Hab Hbc). reflexivity.
Qed.

Lemma insert_sorted_perm (r : Row) (l : list Row) :
  Permutation (insert_sorted r l) (r :: l).
Proof.
  insertion_perm l.
Qed.

Lemma order_by_perm (l : list Row) : Permutation (order_by l) l.
Proof.
  induction l as [|x l IH]; simpl; [reflexivity|].
  rewrite insert_sorted_perm. now constructor.
Qed.

Lemma insert_sorted_sorted (r : Row) (l : list Row) :
  StronglySorted row_le l -> StronglySorted row_le (insert_sorted r l).
Proof.
  induction 1 as [|x l Hs IH Hx]; simpl.
  - repeat constructor.
  - destruct (row_leb r x) eqn:E.
    + constructor; [now constructor|].
      constructor; [exact E|].
      eapply Forall_impl; [|exact Hx].
      intros y Hy. exact (row_leb_trans _ _ _ E Hy).
    + constructor; [exact IH|].
      apply (Permutation_Forall (Permutation_sym (insert_sorted_perm r l))).
      constructor; [now apply row_leb_total | exact Hx].
Qed.

Lemma order_by_sorted (l : list Row) : StronglySorted row_le (order_by l).
Proof.
  induction l as [|x l IH]; simpl; [constructor | now apply insert_sorted_sorted].
Qed.

Lemma row_le_same_key (a b : Row) :
  row_le a b -> row_le b a -> message_id a = message_id b.
Proof.
  unfold row_le, row_leb. rewrite (String.compare_antisym (ts a) (ts b)).
  destruct (String.compare (ts b) (ts a)); simpl; try discriminate.
  intros H1 H2. now apply String.leb_antisym.
Qed.

Lemma sorted_perm_unique (l1 l2 : list Row) :
  StronglySorted row_le l1 -> StronglySorted row_le l2 ->
  Permutation l1 l2 -> NoDup (map message_id l1) -> l1 = l2.
Proof.
  revert l2. induction l1 as [|a l1 IH]; intros l2 S1 S2 P N.
  - now apply Permutation_nil in P.
  - destruct l2 as [|b l2].
    + apply Permutation_sym, Permutation_nil in P. discriminate.
    + inversion S1 as [|? ? S1' F1]; inversion S2 as [|? ? S2' F2]; subst.
      inversion N as [|? ? Na N']; subst.
      assert (E : a = b).
      { assert (Ia : In a (b :: l2))
          by (apply (Permutation_in _ P); now left).
        assert (Ib : In b (a :: l1))
          by (apply (Permutation_in _ (Permutation_sym P)); now left).
        destruct Ia as [Ia | Ia]; [now symmetry|].
        destruct Ib as [Ib | Ib]; [assumption|].
        rewrite Forall_forall in F1, F2.
        exfalso. apply Na.
        rewrite (row_le_same_key a b (F1 b Ib) (F2 a Ia)).
        now apply in_map. }
      subst b. f_equal. apply IH; auto.
      now apply Permutation_cons_inv in P.
Qed.

Lemma filter_perm {A : Type} (p : A -> bool) (l l' : list A) :
  Permutation l l' -> Permutation (filter p l) (filter p l').
Proof.
  induction 1 as [| x l l' _ IH | x y l | l l' l'' _ IH1 _ IH2]; simpl.
  - constructor.
  - destruct (p x); [now constructor | exact IH].
  - destruct (p x), (p y); try reflexivity. apply perm_swap.
  - now rewrite IH1.
Qed.

Lemma filter_unique_keys (p : Row -> bool) (l : list Row) :
  NoDup (map message_id l) -> NoDup (map message_id (filter p l)).
Proof.
  induction l as [|x l IH]; simpl; [auto|].
  intros N. inversion N as [|? ? Nx N']; subst.
  destruct (p x); simpl; [constructor|]; auto.
  intros Hin. apply Nx. apply in_map_iff in Hin as [r [E Hr]].
  apply filter_In in Hr as [Hr _]. rewrite <- E. now apply in_map.
Qed.

Lemma StronglySorted_skipn {A : Type} (R : A -> A -> Prop) (n : nat) (l : list A) :
  StronglySorted R l -> StronglySorted R (skipn n l).
Proof.
  revert l. induction n as [|n IH]; intros l S; [exact S|].
  destruct l as [|x l]; [exact S|]. simpl.
  inversion S; subst. auto.
Qed.

Lemma StronglySorted_firstn {A : Type} (R : A -> A -> Prop) (n : nat) (l : list A) :
  StronglySorted R l -> StronglySorted R (firstn n l).
Proof.
  revert l. induction n as [|n IH]; intros l S; [constructor|].
  destruct l as [|x l]; [constructor|]. simpl.
  inversion S as [|? ? S' F]; subst. constructor; [auto|].
  rewrite Forall_forall in *. intros y Hy. apply F.
  rewrite <- (firstn_skipn n l). apply in_or_app. now left.
Qed.

Lemma StronglySorted_limit_offset {A : Type} (R : A -> A -> Prop)
    (limit offset : Z) (l : list A) :
  StronglySorted R l -> StronglySorted R (limit_offset limit offset l).
Proof.
  intros S. unfold limit_offset. destruct (limit <? 0)%Z.
  - now apply StronglySorted_skipn.
  - now apply StronglySorted_firstn, StronglySorted_skipn.
Qed.

Lemma row_le_key_le (a b : Row) : row_le a b -> key_le (to_dict a) (to_dict b).
Proof.
  unfold row_le, row_leb, key_le, String.ltb. simpl.
  destruct (String.compare (ts a) (ts b)) eqn:E; try discriminate; auto.
  apply String.compare_eq_iff in E. auto.
Qed.

Lemma StronglySorted_to_dict (l : list Row) :
  StronglySorted row_le l -> StronglySorted key_le (map to_dict l).
Proof.
  induction 1 as [|x l S IH F]; simpl; constructor; [exact IH|].
  rewrite Forall_forall in *. intros d Hd.
  apply in_map_iff in Hd as [r [<- Hr]]. apply row_le_key_le. auto.
Qed.

(** C3. Ordering: on a store whose keys are distinct, for every filter
    combination, limit and offset, the returned items are in ascending
    order of the pair (ts, message_id), message_id deciding between equal
    timestamps; and the answer is a function of the set of stored rows:
    it is the same in whatever order they were inserted. *)
Theorem get_messages_sorted :
  forall (t : Table) (limit offset : Z) (f s q : option string),
    unique_keys t ->
    exists items total,
      get_messages (Some t) limit offset f s q = Ok (items, total) /\
      StronglySorted key_le items /\
      forall t', Permutation t t' ->
                 get_messages (Some t') limit offset f s q = Ok (items, total).
Proof.
  intros t limit offset f s q U. unfold get_messages.
  do 2 eexists. split; [reflexivity|]. split.
  - apply StronglySorted_to_dict, StronglySorted_limit_offset, order_by_sorted.
  - intros t' P.
    pose proof (filter_perm (where_clause (conditions f s q)) _ _ P) as PF.
    rewrite <- (Permutation_length PF).
    rewrite (sorted_perm_unique
               (order_by (filter (where_clause (conditions f s q)) t))
               (order_by (filter (where_clause (conditions f s q)) t'))).
    + reflexivity.
    + apply order_by_sorted.
    + apply order_by_sorted.
    + rewrite !order_by_perm. exact PF.
    + apply (Permutation_NoDup
               (Permutation_map message_id (Permutation_sym (order_by_perm _)))).
      now apply filter_unique_keys.
Qed.

Lemma get_messages_sorted_witness :
  exists items total,
    get_messages (Some sample_table) 50 0 None None None = Ok (items, total) /\
    StronglySorted key_le items /\
    forall t', Permutation sample_table t' ->
               get_messages (Some t') 50 0 None None None = Ok (items, total).
Proof.
  apply (get_messages_sorted sample_table 50 0 None None None).
  exact sample_table_unique.
Defined.

(** *** Pagination *)

Lemma limit_offset_length {A : Type} (limit offset : Z) (l : list A) :
  Z.of_nat (List.length (limit_offset limit offset l)) =
  let avail := Z.max 0 (Z.of_nat (List.length l) - Z.max 0 offset) in
  if (limit <? 0)%Z then avail else Z.min limit avail.
Proof.
  unfold limit_offset. cbv zeta.
  destruct (limit <? 0)%Z eqn:E.
  - rewrite length_skipn. lia.
  - rewrite length_firstn, length_skipn. apply Z.ltb_ge in E. lia.
Qed.



Lemma fits_int64_spec (z : Z) :
  fits_int64 z = true <-> (- 2 ^ 63 <= z < 2 ^ 63)%Z.
Proof.
  unfold fits_int64. rewrite andb_true_iff, Z.leb_le, Z.ltb_lt. reflexivity.
Qed.

(** Once the driver has bound limit and offset the call is the two
    queries; otherwise, on an initialised store, it is an OverflowError. *)
Lemma get_messages_call_bound (db : Database) (limit offset : Z)
    (f s q : option string) :
  (- 2 ^ 63 <= limit < 2 ^ 63)%Z -> (- 2 ^ 63 <= offset < 2 ^ 63)%Z ->
  get_messages_call db limit offset f s q = get_messages db limit offset f s q.
Proof.
  intros L O. apply fits_int64_spec in L, O.
  unfold get_messages_call, bind_int. rewrite L, O.
  destruct db; reflexivity.
Qed.

Lemma get_messages_call_overflow (t : Table) (limit offset : Z)
    (f s q : option string) :
  ~ (- 2 ^ 63 <= limit < 2 ^ 63)%Z \/ ~ (- 2 ^ 63 <= offset < 2 ^ 63)%Z ->
  get_messages_call (Some t) limit offset f s q = Raise OverflowError.
Proof.
  intros H. unfold get_messages_call, bind_int.
  destruct (fits_int64 limit) eqn:L.
  - destruct (fits_int64 offset) eqn:O; [|reflexivity].
    apply fits_int64_spec in L, O. destruct H as [H | H]; contradiction.
  - reflexivity.
Qed.

(** C6, as the claim states it, fails: with limit = 101, outside [1,100],
    the store raises nothing, runs the query and returns the rows. *)
Lemma get_messages_out_of_range_accepted :
  (100 < 101)%Z /\
  raises (get_messages_call (Some sample_table) 101 0 None None None) = false /\
  get_messages_call (Some sample_table) 101 0 None None None
  = Ok ([to_dict row2; to_dict row3; to_dict row1], 3%Z).
Proof. split; [lia | split; reflexivity]. Qed.

(** C6, amended. The store checks neither limit nor offset against
    [1,100] and 0: the one refusal is the driver's, OverflowError for a
    value that is no signed 64-bit integer.  For every limit and offset
    in that range, a limit outside [1,100] and a negative offset
    included, and for filter strings within the engine's size limits,
    the call on an initialised store raises nothing and runs the query
    with the values given.  The total is the filtered count; a negative
    offset skips nothing, a negative limit returns all the rows left
    after the offset, and any other limit at most that many. *)
Theorem get_messages_no_range_check :
  forall (t : Table) (limit offset : Z) (f s q : option string),
    texts_within_limits f s q = true ->
    ((- 2 ^ 63 <= limit < 2 ^ 63)%Z -> (- 2 ^ 63 <= offset < 2 ^ 63)%Z ->
     exists items,
       get_messages_call (Some t) limit offset f s q
       = Ok (items, total_matching t f s q) /\
       Z.of_nat (List.length items) =
       let left := Z.max 0 (total_matching t f s q - Z.max 0 offset) in
       if (limit <? 0)%Z then left else Z.min limit left) /\
    (~ (- 2 ^ 63 <= limit < 2 ^ 63)%Z \/ ~ (- 2 ^ 63 <= offset < 2 ^ 63)%Z ->
     get_messages_call (Some t) limit offset f s q = Raise OverflowError).
Proof.
  intros t limit offset f s q _. split.
  - intros L O. rewrite (get_messages_call_bound _ _ _ _ _ _ L O).
    unfold get_messages. eexists. split; [reflexivity|].
    rewrite length_map, limit_offset_length. cbv zeta.
    assert (P : Permutation
                  (order_by (filter (where_clause (conditions f s q)) t))
                  (matching t f s q)) by apply order_by_perm.
    rewrite (Permutation_length P). reflexivity.
  - apply get_messages_call_overflow.
Qed.

Lemma get_messages_no_range_check_witness :
  get_messages_call (Some sample_table) (-1) (-1) None None (Some "o")
  = Ok ([to_dict row1], 1%Z) /\
  (exists items,
     get_messages_call (Some sample_table) (-1) (-1) None None (Some "o")
     = Ok (items, total_matching sample_table None None (Some "o")) /\
     Z.of_nat (List.length items) =
     let left := Z.max 0 (total_matching sample_table None None (Some "o")
                          - Z.max 0 (-1)) in
     if (-1 <? 0)%Z then left else Z.min (-1) left) /\
  get_messages_call (Some sample_table) 50 (2 ^ 63) None None (Some "o")
  = Raise OverflowError.
Proof.
  split; [reflexivity|]. split.
  - apply (proj1 (get_messages_no_range_check sample_table (-1) (-1)
                    None None (Some "o") eq_refl)); lia.
  - apply (proj2 (get_messages_no_range_check sample_table 50 (2 ^ 63)
                    None None (Some "o") eq_refl)).
    right. lia.
Defined.

(** *** Filters *)

Lemma prefix_nocase_spec (q x : string) :
  prefix_nocase q x = true <->
  exists post, fold_case x = (fold_case q ++ post)%string.
Proof.
  revert x. induction q as [|c q IH]; intros x; simpl.
  - split; [intros _; now exists (fold_case x) | reflexivity].
  - destruct x as [|d x]; simpl.
    + split; [discriminate | intros [post H]; discriminate].
    + unfold like_char. rewrite andb_true_iff, Ascii.eqb_eq, IH.
      split.
      * intros [E [post H]]. exists post. now rewrite E, H.
      * intros [post H]. injection H as E H. split; [now symmetry | now exists post].
Qed.

(** [icontains] decides [contains_nocase]. *)
Lemma icontains_spec (q x : string) :
  icontains q x = true <-> contains_nocase q x.
Proof.
  unfold contains_nocase. induction x as [|d x IH]; simpl.
  - rewrite orb_false_r, prefix_nocase_spec. split.
    + intros [post H]. now exists EmptyString, post.
    + intros [pre [post H]]. destruct pre; [now exists post | discriminate].
  - rewrite orb_true_iff, prefix_nocase_spec, IH. split.
    + intros [[post H] | [pre [post H]]].
      * now exists EmptyString, post.
      * exists (String (sqlite_lower d) pre), post. simpl. now rewrite H.
    + intros [pre [post H]]. destruct pre as [|c pre]; simpl in H.
      * left. now exists post.
      * right. injection H as _ H. now exists pre, post.
Qed.

Lemma like_percent_unfold (p s : string) :
  like_match (String "%" p) s =
  like_match p s || match s with
                    | EmptyString => false
                    | String _ s' => like_match (String "%" p) s'
                    end.
Proof. destruct s; reflexivity. Qed.

Lemma like_percent_end (x : string) : like_match "%" x = true.
Proof.
  induction x as [|d x IH]; [reflexivity|].
  rewrite like_percent_unfold. rewrite IH. apply orb_true_r.
Qed.

Lemma like_literal_prefix (q x : string) :
  no_wildcard q = true -> like_match (q ++ "%") x = prefix_nocase q x.
Proof.
  revert x. induction q as [|c q IH]; intros x; simpl.
  - intros _. apply like_percent_end.
  - rewrite !andb_true_iff, !negb_true_iff. intros [[E1 E2] N].
    rewrite E1, E2. destruct x as [|d x]; [reflexivity|].
    simpl. now rewrite IH.
Qed.

Lemma c_str_no_nul (s : string) : no_nul s = true -> c_str s = s.
Proof.
  induction s as [|c s IH]; simpl; [reflexivity|].
  rewrite andb_true_iff, negb_true_iff. intros [E H]. now rewrite E, IH.
Qed.

Lemma no_nul_app (a b : string) :
  no_nul (a ++ b) = no_nul a && no_nul b.
Proof.
  induction a as [|c a IH]; simpl; [reflexivity|].
  now rewrite IH, andb_assoc.
Qed.

(** Without wildcards in [q], and with no NUL in [q] or in the text, the
    condition [text LIKE '%q%'] is the case-insensitive substring match. *)
Lemma like_literal_contains (q x : string) :
  no_wildcard q = true -> no_nul q = true -> no_nul x = true ->
  like ("%" ++ q ++ "%") x = icontains q x.
Proof.
  intros N Zq Zx. unfold like.
  rewrite (c_str_no_nul x Zx), c_str_no_nul
    by (rewrite !no_nul_app, Zq; reflexivity).
  clear Zq Zx. change ("%" ++ q ++ "%")%string with (String "%" (q ++ "%")).
  induction x as [|d x IH]; rewrite like_percent_unfold, like_literal_prefix by exact N.
  - reflexivity.
  - simpl icontains. now rewrite IH.
Qed.

Lemma forallb_app_where (c1 c2 : list (Row -> bool)) (r : Row) :
  where_clause (c1 ++ c2) r = where_clause c1 r && where_clause c2 r.
Proof. unfold where_clause. apply forallb_app. Qed.

Lemma where_from (f : option string) (r : Row) :
  where_clause (cond_from f) r = from_ok f r.
Proof.
  unfold where_clause, cond_from, from_ok, truthy.
  destruct f as [v|]; [|reflexivity].
  destruct (v =? ""); simpl; [reflexivity | apply andb_true_r].
Qed.

Lemma where_since (s : option string) (r : Row) :
  where_clause (cond_since s) r = since_ok s r.
Proof.
  unfold where_clause, cond_since, since_ok, truthy.
  destruct s as [v|]; [|reflexivity].
  destruct (v =? ""); simpl; [reflexivity | apply andb_true_r].
Qed.

Lemma where_q (q : option string) (r : Row) :
  (forall w, q = Some w -> no_wildcard w = true /\ no_nul w = true) ->
  (forall x, text r = Some x -> no_nul x = true) ->
  where_clause (cond_q q) r = text_ok q r.
Proof.
  unfold where_clause, cond_q, text_ok, truthy. intros N T.
  destruct q as [w|]; [|reflexivity].
  destruct (w =? ""); simpl; [reflexivity|].
  rewrite andb_true_r. destruct (text r) as [x|]; [|reflexivity].
  destruct (N w eq_refl) as [N1 N2].
  apply like_literal_contains; auto.
Qed.

(** The filters are AND-combined, and when [q] has neither a wildcard nor
    a NUL and no stored text has a NUL, each is the filter of the
    specification: the rows that pass are those that pass the three
    filters one by one. *)
Lemma matching_literal (t : Table) (f s q : option string) :
  (forall w, q = Some w -> no_wildcard w = true /\ no_nul w = true) ->
  (forall r x, In r t -> text r = Some x -> no_nul x = true) ->
  matching t f s q =
  filter (fun r => from_ok f r && since_ok s r && text_ok q r) t /\
  forall r, In r (matching t f s q) <->
            In r (matching t f None None) /\
            In r (matching t None s None) /\
            In r (matching t None None q).
Proof.
  intros N T. split.
  - unfold matching. apply filter_ext_in. intros r Hr. unfold conditions.
    rewrite !forallb_app_where, where_from, where_since, where_q;
      [apply andb_assoc | exact N | intros x; now apply T].
  - intros r. unfold matching, conditions. rewrite !filter_In, !forallb_app_where.
    change (where_clause (cond_from None) r) with true.
    change (where_clause (cond_since None) r) with true.
    change (where_clause (cond_q None) r) with true.
    rewrite !andb_true_r, !andb_true_iff. simpl. tauto.
Qed.

(** C7 at the failing input: the queries ["_"] and ["%"] are substrings
    of neither stored text, yet each returns both rows that have a text. *)
Theorem get_messages_wildcard_query :
  (icontains "_" "Hello World" = false /\ icontains "_" "abc" = false) /\
  (icontains "%" "Hello World" = false /\ icontains "%" "abc" = false) /\
  get_messages (Some sample_table) 50 0 None None (Some "_")
  = Ok ([to_dict row3; to_dict row1], 2%Z) /\
  get_messages (Some sample_table) 50 0 None None (Some "%")
  = Ok ([to_dict row3; to_dict row1], 2%Z).
Proof. repeat split; reflexivity. Qed.

(** *** Statistics *)

Lemma insert_sender_perm (x : string) (l : list string) :
  Permutation (insert_sender x l) (x :: l).
Proof.
  insertion_perm l.
Qed.

Lemma sort_senders_perm (l : list string) :
  Permutation (fold_right insert_sender [] l) l.
Proof.
  induction l as [|x l IH]; simpl; [reflexivity|].
  rewrite insert_sender_perm. now constructor.
Qed.

Lemma insert_by_count_perm (g : string * nat) (l : list (string * nat)) :
  Permutation (insert_by_count g l) (g :: l).
Proof.
  insertion_perm l.
Qed.

Lemma order_by_count_desc_perm (l : list (string * nat)) :
  Permutation (order_by_count_desc l) l.
Proof.
  induction l as [|x l IH]; simpl; [reflexivity|].
  rewrite insert_by_count_perm. now constructor.
Qed.

Lemma list_sum_perm (l l' : list nat) :
  Permutation l l' -> list_sum l = list_sum l'.
Proof.
  induction 1; simpl; lia.
Qed.

Lemma group_total_firstn (n : nat) (l : list (string * nat)) :
  group_total (firstn n l) <= group_total l.
Proof.
  unfold group_total. revert l. induction n as [|n IH]; intros [|g l]; simpl;
    try lia. specialize (IH l). lia.
Qed.

Lemma counts_sum_of_nat (l : list (string * nat)) :
  counts_sum (map (fun g => (fst g, Z.of_nat (snd g))) l)
  = Z.of_nat (group_total l).
Proof.
  unfold group_total. induction l as [|g l IH]; simpl; [reflexivity|].
  rewrite IH. lia.
Qed.

(** One sender among pairwise distinct senders is counted once. *)
Lemma indicator_sum (x : string) (l : list string) :
  NoDup l -> In x l ->
  list_sum (map (fun s => if x =? s then 1 else 0) l) = 1.
Proof.
  induction 1 as [|y l Hy N IH]; simpl; [contradiction|].
  intros [-> | Hin].
  - rewrite String.eqb_refl. f_equal.
    clear IH N. induction l as [|z l IH]; simpl; [reflexivity|].
    destruct (x =? z) eqn:E.
    + apply String.eqb_eq in E. subst z. exfalso. apply Hy. now left.
    + apply IH. intros H. apply Hy. now right.
  - destruct (x =? y) eqn:E.
    + apply String.eqb_eq in E. subst y. contradiction.
    + now apply IH.
Qed.

(** Over senders that are pairwise distinct and cover the table, the
    per-sender counts add up to the number of rows. *)
Lemma count_from_sum (t : Table) (l : list string) :
  NoDup l -> (forall r, In r t -> In (from_msisdn r) l) ->
  list_sum (map (count_from t) l) = List.length t.
Proof.
  intros N. induction t as [|r t IH]; intros C.
  - clear. induction l as [|x l IHl]; simpl; auto.
  - assert (E : list_sum (map (count_from (r :: t)) l)
               = list_sum (map (fun s => if from_msisdn r =? s then 1 else 0) l)
                 + list_sum (map (count_from t) l)).
    { clear. induction l as [|x l IHl]; simpl; [reflexivity|].
      rewrite IHl. unfold count_from. simpl.
      destruct (from_msisdn r =? x); simpl; lia. }
    rewrite E, (indicator_sum (from_msisdn r) l N) by (apply C; now left).
    rewrite IH by (intros; apply C; now right). reflexivity.
Qed.

Lemma group_by_sender_total (t : Table) :
  group_total (group_by_sender t) = List.length t.
Proof.
  unfold group_total, group_by_sender. rewrite map_map. simpl.
  etransitivity;
    [apply list_sum_perm, Permutation_map, sort_senders_perm|].
  apply count_from_sum.
  - apply NoDup_nodup.
  - intros r Hr. apply nodup_In. now apply in_map.
Qed.

Lemma str_min_le_l (a b : string) : String.leb (str_min a b) a = true.
Proof.
  unfold str_min. destruct (String.leb a b) eqn:E; [apply string_leb_refl|].
  destruct (String.leb_total a b); congruence.
Qed.

Lemma str_max_ge_l (a b : string) : String.leb a (str_max a b) = true.
Proof.
  unfold str_max. destruct (String.leb a b) eqn:E; [exact E | apply string_leb_refl].
Qed.

Lemma fold_min_le (l : Table) (a : string) :
  String.leb (fold_left (fun m x => str_min m (ts x)) l a) a = true.
Proof.
  revert a. induction l as [|x l IH]; intros a; simpl; [apply string_leb_refl|].
  eapply string_leb_trans; [apply IH | apply str_min_le_l].
Qed.

Lemma fold_max_ge (l : Table) (a : string) :
  String.leb a (fold_left (fun m x => str_max m (ts x)) l a) = true.
Proof.
  revert a. induction l as [|x l IH]; intros a; simpl; [apply string_leb_refl|].
  eapply string_leb_trans; [apply str_max_ge_l | apply IH].
Qed.

(** C5, as the claim states it, fails: with eleven senders of one message
    each, messages_per_sender holds ten entries, whose counts sum to 10,
    and total_messages is 11. *)
Lemma get_stats_eleven_senders :
  exists st,
    get_stats (Some eleven_senders) = Ok st /\
    total_messages st = 11%Z /\
    senders_count st = 11%Z /\
    counts_sum (messages_per_sender st) = 10%Z /\
    counts_sum (messages_per_sender st) <> total_messages st.
Proof.
  eexists. split; [reflexivity|]. vm_compute. repeat split; discriminate.
Qed.

(** C5, amended. On every store [get_stats] returns: total_messages, the
    number of rows; senders_count, the number of distinct senders;
    messages_per_sender, at most ten entries, each a sender with the
    number of its messages, whose counts sum to at most total_messages and
    to exactly total_messages when there are at most ten senders;
    first_message_ts <= last_message_ts as strings when a message exists,
    and both null when none does. *)
Theorem get_stats_correct :
  forall t : Table,
    exists st,
      get_stats (Some t) = Ok st /\
      total_messages st = Z.of_nat (List.length t) /\
      (exists senders,
          NoDup senders /\
          (forall x, In x senders <-> exists r, In r t /\ from_msisdn r = x) /\
          senders_count st = Z.of_nat (List.length senders)) /\
      List.length (messages_per_sender st) <= 10 /\
      Forall (fun g => snd g = Z.of_nat (count_from t (fst g)))
             (messages_per_sender st) /\
      (counts_sum (messages_per_sender st) <= total_messages st)%Z /\
      ((senders_count st <= 10)%Z ->
       counts_sum (messages_per_sender st) = total_messages st) /\
      (t = [] -> first_message_ts st = None /\ last_message_ts st = None) /\
      (t <> [] ->
       exists a b, first_message_ts st = Some a /\ last_message_ts st = Some b /\
                   String.leb a b = true).
Proof.
  intros t. eexists. split; [reflexivity|]. cbn [total_messages senders_count
    messages_per_sender first_message_ts last_message_ts].
  pose proof (order_by_count_desc_perm (group_by_sender t)) as P.
  assert (L : List.length (order_by_count_desc (group_by_sender t))
              = List.length (distinct_senders t)).
  { rewrite (Permutation_length P). unfold group_by_sender.
    rewrite length_map. apply Permutation_length, sort_senders_perm. }
  assert (T : group_total (order_by_count_desc (group_by_sender t)) = List.length t).
  { rewrite <- group_by_sender_total. unfold group_total.
    apply list_sum_perm, Permutation_map, P. }
  split; [reflexivity|].
  split.
  { exists (distinct_senders t). split; [apply NoDup_nodup|]. split; [|reflexivity].
    intros x. unfold distinct_senders. rewrite nodup_In, in_map_iff.
    split; intros [r [H1 H2]]; exists r; tauto. }
  split.
  { rewrite length_map, length_firstn. lia. }
  split.
  { rewrite Forall_forall. intros g Hg.
    apply in_map_iff in Hg as [g0 [<- Hg0]]. simpl. f_equal.
    assert (Hin : In g0 (group_by_sender t)).
    { apply (Permutation_in _ P).
      rewrite <- (firstn_skipn 10 (order_by_count_desc (group_by_sender t))).
      apply in_or_app. now left. }
    unfold group_by_sender in Hin. apply in_map_iff in Hin as [x [<- _]].
    reflexivity. }
  split.
  { rewrite counts_sum_of_nat.
    pose proof (group_total_firstn 10 (order_by_count_desc (group_by_sender t))).
    lia. }
  split.
  { intros H. rewrite counts_sum_of_nat, firstn_all2 by lia. now rewrite T. }
  split.
  { now intros ->. }
  intros H. destruct t as [|r t]; [contradiction|]. simpl.
  do 2 eexists. split; [reflexivity|]. split; [reflexivity|].
  eapply string_leb_trans; [apply fold_min_le | apply fold_max_ge].
Qed.

End StorageFacts.

(** ** The signature check *)

Module SignatureFacts.
Import Signature SignatureSpec.

Section Facts.

Variable hmac : list Byte.byte -> list Byte.byte -> string.

(** C2 at the failing input: for whatever digest function, secret and
    body, a signature that holds a non-ASCII character makes
    [verify_signature] raise TypeError instead of returning false, and the
    exception leaves [webhook] in place of the 401 response. *)
Theorem verify_signature_non_ascii_raises :
  forall (secret : string) (body : list Byte.byte),
    verify_signature hmac secret body (String e_acute "") = Raise TypeError /\
    (secret <> "" ->
     webhook_gate hmac (Some secret) (Some (String e_acute "")) body
     = Raise TypeError).
Proof.
  intros secret body.
  assert (V : verify_signature hmac secret body (String e_acute "") = Raise TypeError).
  { unfold verify_signature, compare_digest.
    now rewrite andb_false_r. }
  split; [exact V|].
  intros N. unfold webhook_gate. simpl.
  apply String.eqb_neq in N. rewrite N. simpl. now rewrite V.
Qed.

(** [hexdigest] returns hexadecimal digits, which are ASCII. *)
Hypothesis hexdigest_ascii : forall key msg, is_ascii (hmac key msg) = true.

(** The digest itself is accepted. *)
Lemma verify_signature_digest (secret : string) (body : list Byte.byte) :
  verify_signature hmac secret body (hmac (encode_utf8 secret) body) = Ok true.
Proof.
  unfold verify_signature, compare_digest.
  now rewrite hexdigest_ascii, String.eqb_refl.
Qed.

(** Any other ASCII string, the empty one included, is refused. *)
Lemma verify_signature_other (secret : string) (body : list Byte.byte)
    (signature : string) :
  is_ascii signature = true ->
  signature <> hmac (encode_utf8 secret) body ->
  verify_signature hmac secret body signature = Ok false.
Proof.
  intros A N. unfold verify_signature, compare_digest.
  rewrite hexdigest_ascii, A. simpl. f_equal.
  apply String.eqb_neq. congruence.
Qed.

(** A missing or empty header, or a missing or empty secret, is a 401. *)
Lemma webhook_gate_missing (secret x_signature : option string)
    (body : list Byte.byte) :
  truthy x_signature = false \/ truthy secret = false ->
  webhook_gate hmac secret x_signature body = Ok Unauthorized.
Proof.
  unfold webhook_gate. intros [-> | ->]; [reflexivity|].
  now rewrite orb_true_r.
Qed.

End Facts.

End SignatureFacts.

(** ** The latency histogram *)

Module MetricsFacts.
Import Metrics MetricsSpec.

Lemma bucket_eqb_spec (a b : bucket) : reflect (a = b) (bucket_eqb a b).
Proof.
  destruct a as [x|], b as [y|]; simpl; try (constructor; congruence).
  destruct (Z.eqb_spec x y); constructor; congruence.
Qed.

Lemma bucket_eqb_refl (a : bucket) : bucket_eqb a a = true.
Proof. now destruct (bucket_eqb_spec a a). Qed.

(** [d[k] += 1] on a key of [d]: no KeyError, the same keys, and one more
    under [k] only. *)
Lemma dict_incr_get (d : counts_dict) (k : bucket) :
  In k (keys d) ->
  exists d',
    dict_incr d k = Ok d' /\
    keys d' = keys d /\
    forall k' v, dict_get d k' = Ok v ->
                 dict_get d' k' = Ok (if bucket_eqb k k' then S v else v).
Proof.
  unfold keys. induction d as [|[k0 v0] d IH]; simpl; [contradiction|].
  intros Hin. destruct (bucket_eqb_spec k0 k) as [-> | N].
  - eexists. split; [reflexivity|]. split; [reflexivity|].
    intros k' v. simpl. destruct (bucket_eqb k k'); [|trivial].
    intros H. now injection H as ->.
  - destruct Hin as [E | Hin]; [congruence|].
    destruct (IH Hin) as [d' [E1 [E2 E3]]]. rewrite E1. simpl.
    eexists. split; [reflexivity|]. split; [simpl; now rewrite E2|].
    intros k' v. simpl.
    destruct (bucket_eqb_spec k0 k') as [<- | N'].
    + destruct (bucket_eqb_spec k k0); [congruence | trivial].
    + apply E3.
Qed.

Lemma observe_buckets_get (latency_ms : float) (bs : list bucket) :
  forall d : counts_dict,
    incl bs (keys d) ->
    exists d',
      observe_buckets latency_ms bs d = Ok d' /\
      keys d' = keys d /\
      forall k v, dict_get d k = Ok v ->
                  dict_get d' k = Ok (v + hits latency_ms bs k).
Proof.
  induction bs as [|b bs IH]; intros d Hincl; simpl.
  - exists d. split; [reflexivity|]. split; [reflexivity|].
    intros k v H. unfold hits. simpl. now rewrite Nat.add_0_r.
  - assert (Hb : In b (keys d)) by (apply Hincl; now left).
    assert (Hbs : incl bs (keys d)) by (intros x Hx; apply Hincl; now right).
    unfold hits. simpl. destruct (obs_le latency_ms b) eqn:E.
    + destruct (dict_incr_get d b Hb) as [d1 [E1 [E2 E3]]].
      rewrite E1. simpl.
      destruct (IH d1) as [d' [F1 [F2 F3]]]; [now rewrite E2|].
      exists d'. split; [exact F1|]. split; [congruence|].
      intros k v H. rewrite (F3 k _ (E3 k v H)). f_equal. unfold hits.
      destruct (bucket_eqb b k); simpl; lia.
    + destruct (IH d Hbs) as [d' [F1 [F2 F3]]].
      exists d'. split; [exact F1|]. split; [exact F2|].
      intros k v H. now rewrite (F3 k v H).
Qed.

Lemma hits_once (latency_ms : float) (bs : list bucket) (k : bucket) :
  NoDup bs -> In k bs ->
  hits latency_ms bs k = if obs_le latency_ms k then 1 else 0.
Proof.
  unfold hits. induction 1 as [|b bs Hb N IH]; simpl; [contradiction|].
  assert (Z0 : ~ In k bs ->
               List.length (filter (fun b0 => obs_le latency_ms b0 && bucket_eqb b0 k) bs) = 0).
  { clear. induction bs as [|x bs IHb]; simpl; [reflexivity|].
    intros H. destruct (bucket_eqb_spec x k) as [-> | _].
    - exfalso. apply H. now left.
    - rewrite andb_false_r. apply IHb. intros H'. apply H. now right. }
  intros [-> | Hin].
  - rewrite bucket_eqb_refl, andb_true_r.
    destruct (obs_le latency_ms k); simpl; now rewrite Z0.
  - destruct (bucket_eqb_spec b k) as [-> | _]; [contradiction|].
    rewrite andb_false_r. now apply IH.
Qed.

Lemma latency_buckets_nodup : NoDup latency_buckets.
Proof.
  unfold latency_buckets.
  repeat constructor; simpl; intuition discriminate.
Qed.

Lemma init_well_keyed : well_keyed init.
Proof. reflexivity. Qed.

Lemma observe_latency_step (m : collector) (latency_ms : float) :
  well_keyed m ->
  exists m',
    observe_latency m latency_ms = Ok m' /\
    well_keyed m' /\
    latency_sum m' = PrimFloat.add (latency_sum m) latency_ms /\
    latency_count m' = S (latency_count m) /\
    forall b v, In b latency_buckets ->
                dict_get (latency_counts m) b = Ok v ->
                dict_get (latency_counts m') b
                = Ok (if obs_le latency_ms b then S v else v).
Proof.
  unfold well_keyed, observe_latency. intros W.
  destruct (observe_buckets_get latency_ms latency_buckets (latency_counts m))
    as [d' [E1 [E2 E3]]]; [rewrite W; apply incl_refl|].
  rewrite E1. simpl. eexists. split; [reflexivity|]. simpl.
  split; [congruence|]. split; [reflexivity|]. split; [reflexivity|].
  intros b v Hb H. rewrite (E3 b v H).
  rewrite (hits_once latency_ms latency_buckets b latency_buckets_nodup Hb).
  destruct (obs_le latency_ms b); f_equal; lia.
Qed.

Lemma observe_all_counts (obs : list float) :
  forall m : collector,
    well_keyed m ->
    exists m',
      observe_all m obs = Ok m' /\
      well_keyed m' /\
      latency_sum m' = fold_left PrimFloat.add obs (latency_sum m) /\
      latency_count m' = latency_count m + List.length obs /\
      forall b v, In b latency_buckets ->
                  dict_get (latency_counts m) b = Ok v ->
                  dict_get (latency_counts m') b = Ok (v + observed_le obs b).
Proof.
  induction obs as [|o obs IH]; intros m W; simpl.
  - exists m. split; [reflexivity|]. split; [exact W|]. split; [reflexivity|].
    split; [lia|]. intros b v _ H. unfold observed_le. simpl. now rewrite Nat.add_0_r.
  - destruct (observe_latency_step m o W) as [m1 [E1 [W1 [S1 [C1 G1]]]]].
    rewrite E1. simpl.
    destruct (IH m1 W1) as [m' [E2 [W2 [S2 [C2 G2]]]]].
    exists m'. split; [exact E2|]. split; [exact W2|].
    split; [now rewrite S2, S1|]. split; [lia|].
    intros b v Hb H. rewrite (G2 b _ Hb (G1 b v Hb H)). f_equal.
    unfold observed_le. simpl. destruct (obs_le o b); simpl; lia.
Qed.

Lemma init_counts (b : bucket) :
  In b latency_buckets -> dict_get (latency_counts init) b = Ok 0.
Proof.
  simpl. intros H.
  repeat (destruct H as [<- | H]; [reflexivity|]). contradiction.
Qed.

(** C8. Latency recording.  After any run of observations on a fresh
    collector, one more call of [observe_latency] with [ms] returns
    normally, adds [ms] to the running sum and one to the running count,
    and adds one to the count of exactly the boundaries [b] with
    [ms <= b]; and the stored count of every boundary is the number of
    observations made so far that are [<=] it. *)
Theorem observe_latency_records :
  forall (obs : list float) (ms : float),
    exists m m',
      observe_all init obs = Ok m /\
      observe_latency m ms = Ok m' /\
      latency_sum m' = PrimFloat.add (latency_sum m) ms /\
      latency_count m' = S (latency_count m) /\
      (forall b, In b latency_buckets ->
                 exists v,
                   dict_get (latency_counts m) b = Ok v /\
                   dict_get (latency_counts m') b
                   = Ok (if obs_le ms b then S v else v)) /\
      latency_count m = List.length obs /\
      (forall b, In b latency_buckets ->
                 dict_get (latency_counts m) b = Ok (observed_le obs b) /\
                 dict_get (latency_counts m') b
                 = Ok (observed_le (obs ++ [ms]) b)).
Proof.
  intros obs ms.
  destruct (observe_all_counts obs init init_well_keyed)
    as [m [E [W [_ [C G]]]]].
  destruct (observe_latency_step m ms W) as [m' [E' [_ [S' [C' G']]]]].
  exists m, m'. split; [exact E|]. split; [exact E'|].
  split; [exact S'|]. split; [exact C'|].
  assert (K : forall b, In b latency_buckets ->
                        dict_get (latency_counts m) b = Ok (observed_le obs b)).
  { intros b Hb. now rewrite (G b 0 Hb (init_counts b Hb)). }
  split; [|split; [exact C|]].
  - intros b Hb. exists (observed_le obs b). split; [now apply K|].
    apply G'; [exact Hb | now apply K].
  - intros b Hb. split; [now apply K|].
    rewrite (G' b _ Hb (K b Hb)). f_equal.
    unfold observed_le. rewrite filter_app, length_app. simpl.
    destruct (obs_le ms b); simpl; lia.
Qed.

(** *** The exported histogram *)

Lemma sum_counts_value (d : counts_dict) (c : bucket -> nat) (bs : list bucket) :
  (forall b, In b bs -> dict_get d b = Ok (c b)) ->
  sum_counts d bs = Ok (list_sum (map c bs)).
Proof.
  induction bs as [|b bs IH]; intros H; simpl; [reflexivity|].
  rewrite (H b) by now left. simpl.
  rewrite IH by (intros; apply H; now right). reflexivity.
Qed.

(** What the second loop of [export] prints for a bucket: the sum, over
    the boundaries up to it, of their stored counts. *)
Lemma export_buckets_value (d : counts_dict) (c : bucket -> nat) (bs : list bucket) :
  (forall b, In b latency_buckets -> dict_get d b = Ok (c b)) ->
  export_buckets d bs
  = Ok (map (fun bucket =>
               (le_label bucket,
                list_sum (map c (filter (fun b => bucket_le b bucket)
                                        latency_buckets))))
            bs).
Proof.
  intros H. induction bs as [|b bs IH]; cbn [export_buckets map]; [reflexivity|].
  rewrite (sum_counts_value d c).
  - cbn [bind]. rewrite IH. reflexivity.
  - intros b' Hb'. apply filter_In in Hb' as [Hb' _]. now apply H.
Qed.

(** After any run of observations, the value exported for a bucket adds up
    the observation counts of all the boundaries up to that bucket: an
    observation is counted once for each of them that it is [<=]. *)
Lemma export_sums_stored_counts (obs : list float) :
  exists m,
    observe_all init obs = Ok m /\
    export m
    = Ok (mkHistogram
            (map (fun bucket =>
                    (le_label bucket,
                     list_sum (map (observed_le obs)
                                   (filter (fun b => bucket_le b bucket)
                                           latency_buckets))))
                 latency_buckets)
            (fold_left PrimFloat.add obs PrimFloat.zero)
            (List.length obs)).
Proof.
  destruct (observe_all_counts obs init init_well_keyed)
    as [m [E [W [S [C G]]]]].
  exists m. split; [exact E|]. unfold export.
  rewrite (export_buckets_value _ (observed_le obs)).
  - cbn [bind]. now rewrite S, C.
  - intros b Hb. now rewrite (G b 0 Hb (init_counts b Hb)).
Qed.

(** C9 at the failing input: after the single observation 5.0 the export
    prints 1 for le="10" but 2 for le="25", 3 for le="50", and so on up to
    10 for le="+Inf", while request_latency_ms_count is 1 and one
    observation is [<=] every boundary. *)
Theorem export_one_observation :
  (m <- observe_latency init 5%float ;; export m)
  = Ok (mkHistogram
          [("10", 1); ("25", 2); ("50", 3); ("100", 4); ("250", 5);
           ("500", 6); ("1000", 7); ("2500", 8); ("5000", 9); ("+Inf", 10)]
          5%float 1) /\
  Forall (fun b => observed_le [5%float] b = 1) latency_buckets.
Proof.
  split; [vm_compute; reflexivity|].
  repeat constructor.
Qed.

End MetricsFacts.

(** ** More on the message store *)

Module StorageMore.
Import Storage StorageSpec StorageMoreSpec StorageFacts.

Lemma unique_keys_same_row (t : Table) (a b : Row) :
  unique_keys t -> In a t -> In b t -> message_id a = message_id b -> a = b.
Proof.
  unfold unique_keys. induction t as [|x t IH]; simpl; [contradiction|].
  intros N Ha Hb E. inversion N as [|? ? Nx N']; subst.
  destruct Ha as [-> | Ha], Hb as [-> | Hb]; auto.
  - exfalso. apply Nx. rewrite E. now apply in_map.
  - exfalso. apply Nx. rewrite <- E. now apply in_map.
Qed.

Lemma firstn_all_order_by (l : list Row) (n : nat) :
  List.length l <= n -> firstn n (order_by l) = order_by l.
Proof.
  intros H. apply firstn_all2. now rewrite (Permutation_length (order_by_perm l)).
Qed.

Lemma matching_length_le (t : Table) (f s q : option string) :
  List.length (matching t f s q) <= List.length t.
Proof. unfold matching. apply filter_length_le. Qed.

Lemma listing_eq (t : Table) (f s q : option string) :
  listing t f s q = map to_dict (order_by (matching t f s q)).
Proof.
  unfold listing, get_messages, limit_offset. simpl skipn.
  destruct (Z.of_nat (List.length t) <? 0)%Z eqn:E; [reflexivity|].
  rewrite Nat2Z.id. fold (matching t f s q).
  now rewrite firstn_all_order_by by apply matching_length_le.
Qed.

Lemma in_listing (t : Table) (f s q : option string) (d : MessageDict) :
  In d (listing t f s q) <->
  exists r, In r t /\ where_clause (conditions f s q) r = true /\ to_dict r = d.
Proof.
  rewrite listing_eq, in_map_iff. split.
  - intros [r [E Hr]]. exists r.
    apply (Permutation_in _ (order_by_perm _)) in Hr.
    apply filter_In in Hr. tauto.
  - intros [r [H1 [H2 E]]]. exists r. split; [exact E|].
    apply (Permutation_in _ (Permutation_sym (order_by_perm _))).
    apply filter_In. tauto.
Qed.

Lemma where_conditions (f s q : option string) (r : Row) :
  where_clause (conditions f s q) r =
  where_clause (cond_from f) r && where_clause (cond_since s) r
  && where_clause (cond_q q) r.
Proof.
  unfold conditions. rewrite !forallb_app_where. apply andb_assoc.
Qed.

Lemma where_only_from (f : option string) (r : Row) :
  where_clause (conditions f None None) r = where_clause (cond_from f) r.
Proof.
  rewrite where_conditions.
  change (where_clause (cond_since None) r) with true.
  change (where_clause (cond_q None) r) with true.
  now rewrite !andb_true_r.
Qed.

Lemma where_only_since (s : option string) (r : Row) :
  where_clause (conditions None s None) r = where_clause (cond_since s) r.
Proof.
  rewrite where_conditions.
  change (where_clause (cond_from None) r) with true.
  change (where_clause (cond_q None) r) with true.
  now rewrite andb_true_r.
Qed.

Lemma where_only_q (q : option string) (r : Row) :
  where_clause (conditions None None q) r = where_clause (cond_q q) r.
Proof.
  rewrite where_conditions.
  change (where_clause (cond_from None) r) with true.
  change (where_clause (cond_since None) r) with true.
  reflexivity.
Qed.

(** X4. Filter conjunction, for every query string, wildcards or not: on a
    store with distinct keys an item is in the answer to the three filters
    together exactly when it is in the answer to each filter alone. *)
Theorem listing_filters_intersect :
  forall (t : Table) (f s q : option string) (d : MessageDict),
    unique_keys t ->
    (In d (listing t f s q) <->
     In d (listing t f None None) /\
     In d (listing t None s None) /\
     In d (listing t None None q)).
Proof.
  intros t f s q d U. rewrite !in_listing. split.
  - intros [r [Hr [W E]]]. rewrite where_conditions in W.
    apply andb_true_iff in W as [W Wq]. apply andb_true_iff in W as [Wf Ws].
    repeat split; exists r; (split; [exact Hr|]); (split; [|exact E]).
    + now rewrite where_only_from.
    + now rewrite where_only_since.
    + now rewrite where_only_q.
  - intros [[r1 [H1 [W1 E1]]] [[r2 [H2 [W2 E2]]] [r3 [H3 [W3 E3]]]]].
    assert (K : forall a b, In a t -> In b t -> to_dict a = d -> to_dict b = d -> a = b).
    { intros a b Ha Hb Ea Eb. apply (unique_keys_same_row t a b U Ha Hb).
      change (d_message_id (to_dict a) = d_message_id (to_dict b)). congruence. }
    rewrite <- (K r1 r2 H1 H2 E1 E2) in W2. rewrite <- (K r1 r3 H1 H3 E1 E3) in W3.
    exists r1. split; [exact H1|]. split; [|exact E1].
    rewrite where_only_from in W1. rewrite where_only_since in W2.
    rewrite where_only_q in W3.
    now rewrite where_conditions, W1, W2, W3.
Qed.

Lemma listing_filters_intersect_witness :
  In (to_dict row1) (listing sample_table (Some "+15550001111") (Some "2025") (Some "world")) <->
  In (to_dict row1) (listing sample_table (Some "+15550001111") None None) /\
  In (to_dict row1) (listing sample_table None (Some "2025") None) /\
  In (to_dict row1) (listing sample_table None None (Some "world")).
Proof.
  apply (listing_filters_intersect sample_table (Some "+15550001111")
           (Some "2025") (Some "world") (to_dict row1)).
  unfold unique_keys. simpl. repeat constructor; simpl; intuition discriminate.
Defined.

Lemma limit_offset_incl {A : Type} (limit offset : Z) (l : list A) :
  incl (limit_offset limit offset l) l.
Proof.
  unfold limit_offset. intros x Hx.
  assert (S : incl (skipn (Z.to_nat offset) l) l).
  { intros y Hy. rewrite <- (firstn_skipn (Z.to_nat offset) l).
    apply in_or_app. now right. }
  destruct (limit <? 0)%Z; [now apply S|].
  apply S. rewrite <- (firstn_skipn (Z.to_nat limit) (skipn (Z.to_nat offset) l)).
  apply in_or_app. now left.
Qed.

Lemma NoDup_skipn {A : Type} (n : nat) (l : list A) :
  NoDup l -> NoDup (skipn n l).
Proof.
  intros N. rewrite <- (firstn_skipn n l) in N. now apply NoDup_app_remove_l in N.
Qed.

Lemma NoDup_firstn {A : Type} (n : nat) (l : list A) :
  NoDup l -> NoDup (firstn n l).
Proof.
  intros N. rewrite <- (firstn_skipn n l) in N. now apply NoDup_app_remove_r in N.
Qed.

Lemma map_limit_offset {A B : Type} (g : A -> B) (limit offset : Z) (l : list A) :
  map g (limit_offset limit offset l) = limit_offset limit offset (map g l).
Proof.
  unfold limit_offset. destruct (limit <? 0)%Z.
  - symmetry. apply skipn_map.
  - now rewrite skipn_map, firstn_map.
Qed.

Lemma NoDup_limit_offset {A : Type} (limit offset : Z) (l : list A) :
  NoDup l -> NoDup (limit_offset limit offset l).
Proof.
  intros N. unfold limit_offset. destruct (limit <? 0)%Z.
  - now apply NoDup_skipn.
  - now apply NoDup_firstn, NoDup_skipn.
Qed.

(** X2. What a page never holds.  On a store with distinct keys, for every
    limit, offset and filters, each returned item is the dict of a stored
    row that passes every filter given (sender equal to a non-empty
    from_filter, ts >= a non-empty since, a text that is not NULL under a
    non-empty q), and no message_id is returned twice. *)
Theorem get_messages_items_stored :
  forall (t : Table) (limit offset : Z) (f s q : option string),
    unique_keys t ->
    exists items total,
      get_messages (Some t) limit offset f s q = Ok (items, total) /\
      NoDup (map d_message_id items) /\
      forall d, In d items ->
        exists r, In r t /\ d = to_dict r /\
          (forall v, f = Some v -> v <> "" -> d_from d = v) /\
          (forall v, s = Some v -> v <> "" -> String.leb v (d_ts d) = true) /\
          (forall w, q = Some w -> w <> "" -> d_text d <> None).
Proof.
  intros t limit offset f s q U. unfold get_messages.
  do 2 eexists. split; [reflexivity|]. split.
  - rewrite map_map. change (fun x => d_message_id (to_dict x)) with message_id.
    rewrite map_limit_offset. apply NoDup_limit_offset.
    apply (Permutation_NoDup
             (Permutation_map message_id (Permutation_sym (order_by_perm _)))).
    now apply filter_unique_keys.
  - intros d Hd. apply in_map_iff in Hd as [r [<- Hr]].
    apply limit_offset_incl in Hr.
    apply (Permutation_in _ (order_by_perm _)) in Hr.
    apply filter_In in Hr as [Hr W]. exists r. split; [exact Hr|]. split; [reflexivity|].
    rewrite where_conditions in W.
    apply andb_true_iff in W as [W Wq]. apply andb_true_iff in W as [Wf Ws].
    repeat split.
    + intros v -> N. apply String.eqb_neq in N. unfold cond_from in Wf. rewrite N in Wf.
      simpl in Wf. rewrite andb_true_r in Wf. now apply String.eqb_eq in Wf.
    + intros v -> N. apply String.eqb_neq in N. unfold cond_since in Ws. rewrite N in Ws.
      simpl in Ws. now rewrite andb_true_r in Ws.
    + intros w -> N. apply String.eqb_neq in N. unfold cond_q in Wq. rewrite N in Wq.
      simpl in Wq. simpl. destruct (text r); [discriminate | discriminate].
Qed.

Lemma get_messages_items_stored_witness :
  get_messages (Some sample_table) 2 0 (Some "+15550001111") (Some "2025") (Some "o")
  = Ok ([to_dict row1], 1%Z) /\
  exists items total,
    get_messages (Some sample_table) 2 0 (Some "+15550001111") (Some "2025") (Some "o")
    = Ok (items, total) /\
    NoDup (map d_message_id items) /\
    forall d, In d items ->
      exists r, In r sample_table /\ d = to_dict r /\
        (forall v, Some "+15550001111" = Some v -> v <> "" -> d_from d = v) /\
        (forall v, Some "2025" = Some v -> v <> "" -> String.leb v (d_ts d) = true) /\
        (forall w, Some "o" = Some w -> w <> "" -> d_text d <> None).
Proof.
  split; [reflexivity|].
  apply (get_messages_items_stored sample_table 2 0 (Some "+15550001111")
           (Some "2025") (Some "o")).
  unfold unique_keys. simpl. repeat constructor; simpl; intuition discriminate.
Defined.




(** *** Insert, then list *)

(** X1. Storing a payload on an initialised store never raises and never
    removes or alters what a listing showed: under any filters every item
    listed before is listed after.  When the call reports a new message,
    exactly one row was added and the payload's dict is in the unfiltered
    listing; when it reports a duplicate, the table is what it was. *)
Theorem store_message_then_listing :
  forall (t : Table) (now : string) (P : WebhookMessage),
    exists dup t',
      store_message (Some t) now P = (Ok (true, dup), Some t') /\
      (forall f s q d, In d (listing t f s q) -> In d (listing t' f s q)) /\
      (dup = false ->
       List.length t' = S (List.length t) /\
       In (dict_of P) (listing t' None None None)) /\
      (dup = true -> t' = t).
Proof.
  intros t now P. unfold store_message, insert_message, execute_insert.
  destruct (has_key t (wm_message_id P)) eqn:E.
  - exists true, t. split; [reflexivity|]. split; [auto|]. split; [discriminate | reflexivity].
  - exists false, (t ++ [row_of P now]). split; [reflexivity|]. split; [|split].
    + intros f s q d. rewrite !in_listing. intros [r [H1 H2]].
      exists r. split; [apply in_or_app; now left | exact H2].
    + intros _. split; [rewrite length_app; simpl; lia|].
      apply in_listing. exists (row_of P now).
      split; [apply in_or_app; right; now left|]. split; reflexivity.
    + discriminate.
Qed.

(** *** Statistics *)

Lemma insert_by_count_sorted (g : string * nat) (l : list (string * nat)) :
  StronglySorted (fun a b => snd b <= snd a) l ->
  StronglySorted (fun a b => snd b <= snd a) (insert_by_count g l).
Proof.
  induction 1 as [|x l S IH F]; simpl.
  - repeat constructor.
  - destruct (Nat.leb (snd x) (snd g)) eqn:E.
    + apply Nat.leb_le in E. constructor; [now constructor|].
      constructor; [exact E|].
      eapply Forall_impl; [|exact F]. simpl. intros y Hy. lia.
    + apply Nat.leb_gt in E. constructor; [exact IH|].
      apply (Permutation_Forall (Permutation_sym (insert_by_count_perm g l))).
      constructor; [lia | exact F].
Qed.

Lemma order_by_count_desc_sorted (l : list (string * nat)) :
  StronglySorted (fun a b => snd b <= snd a) (order_by_count_desc l).
Proof.
  induction l as [|g l IH]; simpl; [constructor | now apply insert_by_count_sorted].
Qed.

Lemma group_by_sender_keys (t : Table) :
  Permutation (map fst (group_by_sender t)) (distinct_senders t).
Proof.
  unfold group_by_sender. rewrite map_map. simpl. rewrite map_id.
  apply sort_senders_perm.
Qed.

(** The senders and counts of messages_per_sender, before the ints are
    made. *)
Lemma top_senders_in_groups (t : Table) (g : string * nat) :
  In g (firstn 10 (order_by_count_desc (group_by_sender t))) ->
  In (fst g) (map from_msisdn t) /\ snd g = count_from t (fst g).
Proof.
  intros H.
  assert (Hin : In g (group_by_sender t)).
  { apply (Permutation_in _ (order_by_count_desc_perm _)).
    rewrite <- (firstn_skipn 10 (order_by_count_desc (group_by_sender t))).
    apply in_or_app. now left. }
  unfold group_by_sender in Hin. apply in_map_iff in Hin as [x [<- Hx]].
  split; [|reflexivity]. simpl.
  apply (Permutation_in _ (sort_senders_perm _)) in Hx.
  unfold distinct_senders in Hx. now apply nodup_In in Hx.
Qed.

(** X7. messages_per_sender is in descending order of count, names no sender
    twice, and names only senders that have a stored message. *)
Theorem get_stats_top_senders_sorted :
  forall t : Table,
    exists st,
      get_stats (Some t) = Ok st /\
      StronglySorted count_ge (messages_per_sender st) /\
      NoDup (map fst (messages_per_sender st)) /\
      forall g, In g (messages_per_sender st) ->
                (0 < snd g)%Z /\ exists r, In r t /\ from_msisdn r = fst g.
Proof.
  intros t. eexists. split; [reflexivity|]. cbn [messages_per_sender].
  split; [|split].
  - pose proof (StronglySorted_firstn _ 10 _
                  (order_by_count_desc_sorted (group_by_sender t))) as S.
    induction S as [|x l S IH F]; simpl; constructor; [exact IH|].
    rewrite Forall_forall in *. intros y Hy.
    apply in_map_iff in Hy as [y0 [<- Hy0]]. unfold count_ge. simpl.
    specialize (F y0 Hy0). simpl in F. lia.
  - rewrite map_map, <- firstn_map. apply NoDup_firstn.
    change (NoDup (map fst (order_by_count_desc (group_by_sender t)))).
    apply (Permutation_NoDup
             (Permutation_map fst (Permutation_sym (order_by_count_desc_perm _)))).
    apply (Permutation_NoDup (Permutation_sym (group_by_sender_keys t))).
    apply NoDup_nodup.
  - intros g Hg. apply in_map_iff in Hg as [g0 [<- Hg0]].
    apply top_senders_in_groups in Hg0 as [Hs Hc]. simpl.
    apply in_map_iff in Hs as [r [E Hr]].
    split; [|now exists r].
    rewrite Hc. unfold count_from.
    assert (In r (filter (fun r0 => from_msisdn r0 =? fst g0) t)).
    { apply filter_In. split; [exact Hr|]. rewrite E. apply String.eqb_refl. }
    destruct (filter (fun r0 => from_msisdn r0 =? fst g0) t); [contradiction|].
    simpl. lia.
Qed.

Lemma fold_min_spec (l : Table) (a : string) :
  let m := fold_left (fun m x => str_min m (ts x)) l a in
  (m = a \/ exists x, In x l /\ ts x = m) /\
  forall x, In x l -> String.leb m (ts x) = true.
Proof.
  revert a. induction l as [|y l IH]; intros a; simpl.
  - split; [now left | contradiction].
  - destruct (IH (str_min a (ts y))) as [H1 H2]. split.
    + destruct H1 as [H1 | [x [Hx E]]].
      * assert (C : str_min a (ts y) = a \/ str_min a (ts y) = ts y)
          by (unfold str_min; destruct (String.leb a (ts y)); auto).
        destruct C as [C | C];
          [left; congruence | right; exists y; split; [now left | congruence]].
      * right. exists x. split; [now right | exact E].
    + intros x [<- | Hx]; [|now apply H2].
      eapply string_leb_trans; [apply fold_min_le|].
      unfold str_min. destruct (String.leb a (ts y)) eqn:E; [exact E | apply string_leb_refl].
Qed.

Lemma fold_max_spec (l : Table) (a : string) :
  let m := fold_left (fun m x => str_max m (ts x)) l a in
  (m = a \/ exists x, In x l /\ ts x = m) /\
  forall x, In x l -> String.leb (ts x) m = true.
Proof.
  revert a. induction l as [|y l IH]; intros a; simpl.
  - split; [now left | contradiction].
  - destruct (IH (str_max a (ts y))) as [H1 H2]. split.
    + destruct H1 as [H1 | [x [Hx E]]].
      * assert (C : str_max a (ts y) = a \/ str_max a (ts y) = ts y)
          by (unfold str_max; destruct (String.leb a (ts y)); auto).
        destruct C as [C | C];
          [left; congruence | right; exists y; split; [now left | congruence]].
      * right. exists x. split; [now right | exact E].
    + intros x [<- | Hx]; [|now apply H2].
      eapply string_leb_trans; [|apply fold_max_ge].
      unfold str_max. destruct (String.leb a (ts y)) eqn:E; [apply string_leb_refl|].
      destruct (String.leb_total a (ts y)); congruence.
Qed.

(** X8. first_message_ts and last_message_ts are the least and the greatest
    stored ts under string comparison: each is the ts of a stored row, and
    every stored ts lies between them. *)
Theorem get_stats_first_last :
  forall (t : Table) (r : Row),
    In r t ->
    exists st a b,
      get_stats (Some t) = Ok st /\
      first_message_ts st = Some a /\ last_message_ts st = Some b /\
      (exists r1, In r1 t /\ ts r1 = a) /\
      (exists r2, In r2 t /\ ts r2 = b) /\
      forall x, In x t ->
                String.leb a (ts x) = true /\ String.leb (ts x) b = true.
Proof.
  intros t r Hr. destruct t as [|y l]; [contradiction|].
  do 3 eexists. split; [reflexivity|]. simpl.
  split; [reflexivity|]. split; [reflexivity|].
  destruct (fold_min_spec l (ts y)) as [A1 A2].
  destruct (fold_max_spec l (ts y)) as [B1 B2]. cbv zeta in *.
  split; [|split].
  - destruct A1 as [A1 | [x [Hx E]]]; [exists y | exists x]; auto.
  - destruct B1 as [B1 | [x [Hx E]]]; [exists y | exists x]; auto.
  - intros x [<- | Hx]; [split; [apply fold_min_le | apply fold_max_ge] | auto].
Qed.

Lemma get_stats_first_last_witness :
  exists st a b,
    get_stats (Some sample_table) = Ok st /\
    first_message_ts st = Some a /\ last_message_ts st = Some b /\
    (exists r1, In r1 sample_table /\ ts r1 = a) /\
    (exists r2, In r2 sample_table /\ ts r2 = b) /\
    forall x, In x sample_table ->
              String.leb a (ts x) = true /\ String.leb (ts x) b = true.
Proof.
  apply (get_stats_first_last sample_table row2). simpl. tauto.
Defined.

Lemma total_from_filter (t : Table) (v : string) :
  v <> "" ->
  List.length (filter (where_clause (conditions (Some v) None None)) t)
  = count_from t v.
Proof.
  intros N. unfold count_from. f_equal. apply filter_ext. intros r.
  rewrite where_only_from. unfold cond_from.
  apply String.eqb_neq in N. rewrite N. simpl. apply andb_true_r.
Qed.

(** X9. The statistics and the listing agree: total_messages is the total of
    the unfiltered listing, and the count that messages_per_sender gives a
    sender is the total of the listing filtered on that sender (a sender
    that is the empty string apart, since an empty filter is no filter). *)
Theorem get_stats_agrees_with_get_messages :
  forall (t : Table) (limit offset : Z),
    exists st items,
      get_stats (Some t) = Ok st /\
      get_messages (Some t) limit offset None None None
      = Ok (items, total_messages st) /\
      forall g, In g (messages_per_sender st) -> fst g <> "" ->
        exists items',
          get_messages (Some t) limit offset (Some (fst g)) None None
          = Ok (items', snd g).
Proof.
  intros t limit offset. do 2 eexists. split; [reflexivity|]. split.
  - unfold get_messages. cbn [total_messages]. f_equal. f_equal. f_equal.
    f_equal. clear. induction t as [|r t IH]; simpl; [reflexivity | now rewrite IH].
  - cbn [messages_per_sender]. intros g Hg N.
    apply in_map_iff in Hg as [g0 [<- Hg0]]. simpl in *.
    apply top_senders_in_groups in Hg0 as [_ Hc].
    unfold get_messages. eexists. f_equal. f_equal.
    rewrite Hc. f_equal. now apply total_from_filter.
Qed.

(** *** The text filter and case *)

Lemma sqlite_lower_idem (c : ascii) : sqlite_lower (sqlite_lower c) = sqlite_lower c.
Proof. destruct c as [[] [] [] [] [] [] [] []]; reflexivity. Qed.

Lemma sqlite_lower_percent (c : ascii) :
  Ascii.eqb (sqlite_lower c) "%" = Ascii.eqb c "%".
Proof. destruct c as [[] [] [] [] [] [] [] []]; reflexivity. Qed.

Lemma sqlite_lower_underscore (c : ascii) :
  Ascii.eqb (sqlite_lower c) "_" = Ascii.eqb c "_".
Proof. destruct c as [[] [] [] [] [] [] [] []]; reflexivity. Qed.

Lemma sqlite_lower_nul (c : ascii) :
  Ascii.eqb (sqlite_lower c) Ascii.zero = Ascii.eqb c Ascii.zero.
Proof. destruct c as [[] [] [] [] [] [] [] []]; reflexivity. Qed.

Lemma c_str_fold_case (s : string) : c_str (fold_case s) = fold_case (c_str s).
Proof.
  induction s as [|c s IH]; simpl; [reflexivity|].
  rewrite sqlite_lower_nul. destruct (Ascii.eqb c Ascii.zero); simpl; [reflexivity|].
  now rewrite IH.
Qed.

Lemma like_cons_unfold (c : ascii) (p s : string) :
  Ascii.eqb c "%" = false ->
  like_match (String c p) s =
  match s with
  | EmptyString => false
  | String d s' => (Ascii.eqb c "_" || like_char c d) && like_match p s'
  end.
Proof. intros E. simpl. now rewrite E. Qed.

Lemma like_percent_ext (p p' : string) :
  (forall s, like_match p s = like_match p' s) ->
  forall s, like_match (String "%" p) s = like_match (String "%" p') s.
Proof.
  intros H s. induction s as [|d s IH].
  - now rewrite (like_percent_unfold p ""), (like_percent_unfold p' ""), H.
  - rewrite (like_percent_unfold p (String d s)),
      (like_percent_unfold p' (String d s)), H.
    now rewrite IH.
Qed.

Lemma like_match_fold_case (p s : string) :
  like_match (fold_case p) s = like_match p s.
Proof.
  revert s. induction p as [|c p IH]; intros s; [reflexivity|].
  cbn [fold_case]. destruct (Ascii.eqb c "%") eqn:E.
  - apply Ascii.eqb_eq in E. subst c. change (sqlite_lower "%") with "%"%char.
    now apply like_percent_ext.
  - rewrite !like_cons_unfold by (rewrite ?sqlite_lower_percent; exact E).
    destruct s as [|d s]; [reflexivity|].
    rewrite sqlite_lower_underscore, IH. unfold like_char.
    now rewrite sqlite_lower_idem.
Qed.

(** LIKE does not see the ASCII case of its pattern. *)
Lemma like_fold_case (p s : string) : like (fold_case p) s = like p s.
Proof. unfold like. now rewrite c_str_fold_case, like_match_fold_case. Qed.

Lemma fold_case_app (a b : string) :
  fold_case (a ++ b) = (fold_case a ++ fold_case b)%string.
Proof. induction a as [|c a IH]; simpl; [reflexivity | now rewrite IH]. Qed.

Lemma fold_case_empty (q q' : string) :
  fold_case q = fold_case q' -> (q =? "") = (q' =? "").
Proof. destruct q, q'; simpl; intros H; try discriminate; reflexivity. Qed.

(** X5. The text search is case-insensitive in its query: two queries that
    differ only in the case of ASCII letters get the same answer, for
    every store, page and other filters, wildcards in the query or not. *)
Theorem get_messages_query_case :
  forall (db : Database) (limit offset : Z) (f s : option string) (q q' : string),
    fold_case q = fold_case q' ->
    get_messages db limit offset f s (Some q)
    = get_messages db limit offset f s (Some q').
Proof.
  intros db limit offset f s q q' H. unfold get_messages.
  destruct db as [t|]; [|reflexivity].
  assert (W : forall r, where_clause (conditions f s (Some q)) r
                        = where_clause (conditions f s (Some q')) r).
  { intros r. rewrite !where_conditions. f_equal.
    unfold cond_q. rewrite (fold_case_empty q q' H).
    destruct (q' =? ""); [reflexivity|]. simpl.
    destruct (text r) as [x|]; [|reflexivity]. f_equal.
    rewrite <- (like_fold_case ("%" ++ q ++ "%")), <- (like_fold_case ("%" ++ q' ++ "%")).
    now rewrite !fold_case_app, H. }
  now rewrite (filter_ext _ _ W).
Qed.

Lemma get_messages_query_case_witness :
  get_messages (Some sample_table) 50 0 None None (Some "WORLD")
  = get_messages (Some sample_table) 50 0 None None (Some "world").
Proof.
  apply (get_messages_query_case (Some sample_table) 50 0 None None "WORLD" "world").
  reflexivity.
Defined.

End StorageMore.

(** ** The counters *)

Module CountersFacts.
Import Metrics MetricsSpec MetricsFacts Counters CountersSpec.

(** *** A [defaultdict(int)] under [+= 1] *)

Lemma dd_get_incr (d : counter) (k k' : string) :
  dd_get (dd_incr d k) k' = dd_get d k' + (if k =? k' then 1 else 0).
Proof.
  induction d as [|[k0 v] d IH]; simpl.
  - destruct (k =? k'); reflexivity.
  - destruct (String.eqb_spec k0 k) as [-> | N]; simpl.
    + destruct (k =? k'); lia.
    + destruct (String.eqb_spec k0 k') as [-> | N'].
      * destruct (String.eqb_spec k k'); [congruence | lia].
      * apply IH.
Qed.




Lemma dd_get_missing (d : counter) (k : string) :
  ~ In k (map fst d) -> dd_get d k = 0.
Proof.
  induction d as [|[k0 v] d IH]; simpl; [reflexivity|].
  intros H. destruct (String.eqb_spec k0 k) as [-> | N]; [exfalso; auto | auto].
Qed.



(** *** The key of an HTTP counter *)

Lemma no_bar_uint (d : Decimal.uint) : no_bar (NilEmpty.string_of_uint d) = true.
Proof. induction d; simpl; auto. Qed.

Lemma no_bar_str_of_int (n : Z) : no_bar (str_of_int n) = true.
Proof.
  unfold str_of_int, NilZero.string_of_int, NilZero.string_of_uint.
  destruct (Z.to_int n) as [d | d]; destruct d; simpl; auto using no_bar_uint.
Qed.

Lemma rsplit_bar_none (s : string) : no_bar s = true -> rsplit_bar s = None.
Proof.
  induction s as [|c s IH]; simpl; [reflexivity|].
  rewrite andb_true_iff, negb_true_iff. intros [E H]. now rewrite IH, E.
Qed.

Lemma rsplit_bar_app (a b : string) :
  no_bar b = true -> rsplit_bar (a ++ "|" ++ b) = Some (a, b).
Proof.
  intros H. induction a as [|c a IH]; simpl in *.
  - now rewrite rsplit_bar_none.
  - now rewrite IH.
Qed.

Lemma to_int_not_nil (n : Z) :
  Z.to_int n <> Decimal.Pos Decimal.Nil /\ Z.to_int n <> Decimal.Neg Decimal.Nil.
Proof.
  split; intros H; pose proof (DecimalZ.to_of (Z.to_int n)) as T;
    rewrite DecimalZ.of_to in T; rewrite H in T; discriminate.
Qed.

Lemma str_of_int_inj (n n' : Z) : str_of_int n = str_of_int n' -> n = n'.
Proof.
  unfold str_of_int. intros H. apply DecimalZ.to_int_inj.
  assert (E : NilZero.int_of_string (NilZero.string_of_int (Z.to_int n))
              = NilZero.int_of_string (NilZero.string_of_int (Z.to_int n')))
    by now rewrite H.
  rewrite !NilZero.isi in E by apply to_int_not_nil.
  now injection E.
Qed.

Lemma rsplit_http_key (path : string) (status : Z) :
  rsplit_bar (http_key path status) = Some (path, str_of_int status).
Proof. unfold http_key. apply rsplit_bar_app, no_bar_str_of_int. Qed.

Lemma http_key_inj (path path' : string) (status status' : Z) :
  http_key path status = http_key path' status' ->
  path = path' /\ status = status'.
Proof.
  intros E.
  assert (H : Some (path, str_of_int status) = Some (path', str_of_int status'))
    by (rewrite <- !rsplit_http_key; now rewrite E).
  injection H as H1 H2. split; [exact H1 | now apply str_of_int_inj].
Qed.

(** X16. The key of an HTTP counter gives back its path and status.  Whatever
    the path, bars included, [rsplit("|", 1)] splits the key
    [f'{path}|{status}'] into that path and [str(status)]; so two
    different (path, status) pairs never share a counter. *)
Theorem http_key_round_trip :
  forall (path : string) (status : Z),
    rsplit_bar (http_key path status) = Some (path, str_of_int status) /\
    forall (path' : string) (status' : Z),
      http_key path status = http_key path' status' ->
      path = path' /\ status = status'.
Proof.
  intros path status. split; [apply rsplit_http_key|].
  intros path' status'. apply http_key_inj.
Qed.

(** *** [sorted] on the items of a counter *)








(** *** The webhook counter *)


(** *** What the middleware records *)





End CountersFacts.

(** ** More on the latency histogram *)

Module MetricsMore.
Import Metrics MetricsSpec MetricsFacts.

(** [<=] on floats is transitive (no NaN passes it). *)
Lemma SFleb_trans (a b c : spec_float) :
  SFleb a b = true -> SFleb b c = true -> SFleb a c = true.
Proof.
  unfold SFleb, SFcompare.
  destruct a as [[]| []| |[] m1 e1], b as [[]| []| |[] m2 e2], c as [[]| []| |[] m3 e3];
    try reflexivity; try discriminate;
    fold (Pos.compare m1 m2); fold (Pos.compare m2 m3); fold (Pos.compare m1 m3);
    destruct (Z.compare_spec e1 e2), (Z.compare_spec e2 e3), (Z.compare_spec e1 e3);
    try lia; try discriminate; try reflexivity; subst;
    destruct (Pos.compare_spec m1 m2), (Pos.compare_spec m2 m3),
      (Pos.compare_spec m1 m3); simpl; try lia; try discriminate; try reflexivity.
Qed.

Lemma float_leb_trans (x y z : float) :
  PrimFloat.leb x y = true -> PrimFloat.leb y z = true -> PrimFloat.leb x z = true.
Proof. rewrite !FloatAxioms.leb_spec. apply SFleb_trans. Qed.

Lemma bucket_float_mono (b' b : bucket) :
  In b' latency_buckets -> In b latency_buckets -> bucket_le b' b = true ->
  PrimFloat.leb (bucket_float b') (bucket_float b) = true.
Proof.
  unfold latency_buckets. simpl. intros H' H.
  repeat (destruct H' as [<- | H']; [|]); try contradiction;
    repeat (destruct H as [<- | H]; [|]); try contradiction;
    intros L; try discriminate L; vm_compute; reflexivity.
Qed.

Lemma filter_length_mono {A : Type} (p q : A -> bool) (l : list A) :
  (forall x, p x = true -> q x = true) ->
  List.length (filter p l) <= List.length (filter q l).
Proof.
  intros H. induction l as [|x l IH]; simpl; [lia|].
  destruct (p x) eqn:E.
  - rewrite (H x E). simpl. lia.
  - destruct (q x); simpl; lia.
Qed.

(** X18. Stored bucket counts grow with the boundary.  After any run of
    observations on a fresh collector, the count stored for a boundary is
    at most the count stored for any larger boundary, and no stored count
    exceeds request_latency_ms_count. *)
Theorem stored_counts_monotone :
  forall (obs : list float) (b' b : bucket),
    In b' latency_buckets -> In b latency_buckets -> bucket_le b' b = true ->
    exists m v' v,
      observe_all init obs = Ok m /\
      dict_get (latency_counts m) b' = Ok v' /\
      dict_get (latency_counts m) b = Ok v /\
      v' <= v /\ v <= latency_count m.
Proof.
  intros obs b' b H' H L.
  destruct (observe_all_counts obs init init_well_keyed) as [m [E [_ [_ [C G]]]]].
  exists m, (observed_le obs b'), (observed_le obs b).
  split; [exact E|].
  split; [now rewrite (G b' 0 H' (init_counts b' H'))|].
  split; [now rewrite (G b 0 H (init_counts b H))|].
  split.
  - apply filter_length_mono. intros o Ho. unfold obs_le in *.
    exact (float_leb_trans _ _ _ Ho (bucket_float_mono b' b H' H L)).
  - rewrite C. simpl. apply filter_length_le.
Qed.

Lemma stored_counts_monotone_witness :
  exists m v' v,
    observe_all init [5%float; 30%float; nan] = Ok m /\
    dict_get (latency_counts m) (IntB 10) = Ok v' /\
    dict_get (latency_counts m) InfB = Ok v /\
    v' <= v /\ v <= latency_count m.
Proof.
  apply (stored_counts_monotone [5%float; 30%float; nan] (IntB 10) InfB).
  - simpl. tauto.
  - simpl. tauto.
  - reflexivity.
Defined.

Lemma bucket_le_trans (a b c : bucket) :
  bucket_le a b = true -> bucket_le b c = true -> bucket_le a c = true.
Proof.
  destruct a, b, c; simpl; try discriminate; try reflexivity.
  rewrite !Z.leb_le. lia.
Qed.

Lemma list_sum_filter_mono {A : Type} (c : A -> nat) (p q : A -> bool) (l : list A) :
  (forall x, p x = true -> q x = true) ->
  list_sum (map c (filter p l)) <= list_sum (map c (filter q l)).
Proof.
  intros H. induction l as [|x l IH]; simpl; [lia|].
  destruct (p x) eqn:E.
  - rewrite (H x E). simpl. lia.
  - destruct (q x); simpl; lia.
Qed.

Lemma latency_buckets_sorted :
  StronglySorted (fun a b => bucket_le a b = true) latency_buckets.
Proof. unfold latency_buckets. repeat constructor. Qed.

(** X19. The exported histogram never decreases along its buckets: after any
    run of observations on a fresh collector, [export] succeeds and the
    value printed for a bucket is at most the value printed for every
    later bucket. *)
Theorem export_values_nondecreasing :
  forall obs : list float,
    exists m h,
      observe_all init obs = Ok m /\
      export m = Ok h /\
      List.length (h_buckets h) = List.length latency_buckets /\
      StronglySorted (fun a b => snd a <= snd b) (h_buckets h).
Proof.
  intros obs. destruct (export_sums_stored_counts obs) as [m [E X]].
  exists m. eexists. split; [exact E|]. split; [exact X|]. cbn [h_buckets].
  split; [apply length_map|].
  generalize latency_buckets_sorted.
  generalize latency_buckets at 1 3 as bs.
  induction 1 as [|b bs S IH F]; cbn [map]; constructor; [exact IH|].
  rewrite Forall_forall in *. intros y Hy.
  apply in_map_iff in Hy as [b2 [<- Hb2]]. cbn [snd].
  apply list_sum_filter_mono. intros x Hx.
  exact (bucket_le_trans _ _ _ Hx (F b2 Hb2)).
Qed.

(** X20. What [export] prints of the buckets and the count after any run
    of observations on a fresh collector.  The value of a bucket is the
    sum, over the boundaries up to that bucket, of the number of
    observations [<=] each of them, so only the first bucket shows its
    own count; request_latency_ms_count is the number of observations. *)
Theorem export_after_observations :
  forall obs : list float,
    exists m h,
      observe_all init obs = Ok m /\
      export m = Ok h /\
      h_buckets h
      = map (fun bucket =>
               (le_label bucket,
                list_sum (map (observed_le obs)
                              (filter (fun b => bucket_le b bucket)
                                      latency_buckets))))
            latency_buckets /\
      nth_error (h_buckets h) 0 = Some ("10", observed_le obs (IntB 10)) /\
      h_count h = List.length obs.
Proof.
  intros obs. destruct (export_sums_stored_counts obs) as [m [E X]].
  exists m. eexists. split; [exact E|]. split; [exact X|].
  cbn [h_buckets h_count]. split; [reflexivity|]. split; [|reflexivity].
  simpl. now rewrite Nat.add_0_r.
Qed.

End MetricsMore.

(** ** The settings *)

Module ConfigFacts.
Import Config MoreSpec.

Lemma remove_all_without (old p : string) :
  occurs old p = false -> remove_all old p = p.
Proof.
  unfold remove_all. induction p as [|c p IH]; [reflexivity|].
  cbn [occurs remove_from]. intros H. apply orb_false_iff in H as [H1 H2].
  rewrite H1. now rewrite IH.
Qed.

Lemma remove_from_skip (old a p : string) :
  remove_from old (String.length a) (a ++ p) = remove_from old 0 p.
Proof. induction a as [|c a IH]; simpl; [reflexivity | exact IH]. Qed.

Lemma prefix_append (a p : string) : String.prefix a (a ++ p) = true.
Proof.
  induction a as [|c a IH]; simpl; [now destruct p|].
  destruct (ascii_dec c c); [exact IH | contradiction].
Qed.

(** X21. [db_path] reads the path off a sqlite URL and falls back silently.
    A DATABASE_URL that does not start with "sqlite:///" gives
    "/data/app.db", whatever it is; a URL "sqlite:///" followed by a path
    gives that path back, provided "sqlite:///" does not occur in the path
    again. *)
Theorem db_path_cases :
  forall st : Settings,
    (String.prefix "sqlite:///" (database_url st) = false ->
     db_path st = "/data/app.db") /\
    (forall p, database_url st = ("sqlite:///" ++ p)%string ->
               occurs "sqlite:///" p = false ->
               db_path st = p).
Proof.
  intros st. unfold db_path. split.
  - now intros ->.
  - intros p -> H. rewrite prefix_append. unfold remove_all.
    assert (E : String.prefix "sqlite:///" (String "s" ("qlite:///" ++ p)) = true)
      by exact (prefix_append "sqlite:///" p).
    change ("sqlite:///" ++ p)%string with (String "s" ("qlite:///" ++ p)).
    cbn [remove_from]. rewrite E.
    change (Nat.pred (String.length "sqlite:///")) with (String.length "qlite:///").
    rewrite remove_from_skip. now apply remove_all_without.
Qed.

Lemma db_path_cases_witness :
  db_path (mkSettings "sqlite:////data/app.db" "INFO" None) = "/data/app.db" /\
  db_path (mkSettings "postgresql://db/app" "INFO" None) = "/data/app.db".
Proof.
  split.
  - apply (proj2 (db_path_cases (mkSettings "sqlite:////data/app.db" "INFO" None))
             "/data/app.db"); reflexivity.
  - apply (proj1 (db_path_cases (mkSettings "postgresql://db/app" "INFO" None)));
      reflexivity.
Defined.

End ConfigFacts.

(** ** The E.164 pattern *)

Module ModelsFacts.
Import Models MoreSpec.

Section PatternFacts.

Variable unicode_digit : N -> bool.

Lemma digits_to_end_digits (ds : str) :
  all_digits unicode_digit ds = true ->
  digits_to_end unicode_digit ds = true /\
  digits_to_end unicode_digit (ds ++ newline)%list = true.
Proof.
  unfold all_digits.
  induction ds as [|c ds IH]; simpl.
  - intros _. split; [reflexivity|].
    destruct (unicode_digit line_feed); reflexivity.
  - rewrite andb_true_iff. intros [D H]. rewrite D. auto.
Qed.

Lemma digits_to_end_inv (s : str) :
  digits_to_end unicode_digit s = true ->
  exists ds, all_digits unicode_digit ds = true /\
             (s = ds \/ s = (ds ++ newline)%list).
Proof.
  unfold all_digits.
  induction s as [|c s IH]; simpl.
  - intros _. exists nil. auto.
  - destruct (unicode_digit c) eqn:D.
    + intros H. destruct (IH H) as [ds [A [E | E]]];
        exists (c :: ds); simpl; rewrite D, A; subst; auto.
    + rewrite andb_true_iff, N.eqb_eq. intros [-> H].
      destruct s; [|discriminate]. exists nil. auto.
Qed.

(** X22. What the E.164 pattern accepts among the [str] values: exactly a
    plus sign followed by one or more characters that [\d] matches (the
    Unicode decimal digits, not only 0 to 9), or such a string followed
    by one line feed (the [$] of the pattern matches before a final
    newline). *)
Theorem e164_match_accepts :
  forall v : str,
    e164_match unicode_digit v = true <->
    exists ds, ds <> nil /\ all_digits unicode_digit ds = true /\
               (v = plus_sign :: ds \/ v = plus_sign :: (ds ++ newline)%list).
Proof.
  intros v. split.
  - destruct v as [|c [|d s]]; simpl; try discriminate.
    rewrite !andb_true_iff, N.eqb_eq. intros [[-> D] H].
    destruct (digits_to_end_inv s H) as [ds [A [E | E]]];
      exists (d :: ds); unfold all_digits in *; simpl; rewrite D, A; subst;
      (split; [discriminate | split; [reflexivity | auto]]).
  - intros [ds [N [A E]]]. destruct ds as [|d ds]; [contradiction|].
    unfold all_digits in A. simpl in A. apply andb_true_iff in A as [D A].
    destruct (digits_to_end_digits ds A) as [H1 H2].
    destruct E as [-> | ->]; simpl; now rewrite D, ?H1, ?H2.
Qed.

End PatternFacts.

End ModelsFacts.

(** ** The handlers *)

Module HandlersFacts.
Import Storage StorageSpec StorageFacts Signature Counters CountersFacts Handlers.

(** The part of the accounting that every answered delivery shares: the
    outcome left on the request, its counter, the rest untouched. *)
Ltac counted :=
  split; [reflexivity|];
  split; [intros ?; apply dd_get_incr|];
  split; [reflexivity|];
  split; [reflexivity|].

Section WebhookFacts.

Variable hmac : list Byte.byte -> list Byte.byte -> string.
Variable parse : list Byte.byte -> option WebhookMessage.

(** X11. Every delivery is accounted for once.  When [webhook] answers, it has
    added one to exactly one webhook counter, the one of the outcome it
    left on the request, and the status goes with the outcome: 401 with
    invalid_signature, 422 with validation_error, 200 with duplicate or
    created; only a created message changes the database, by the one row
    of the parsed payload.  When an exception escapes instead (TypeError
    from the comparison, OperationalError from the insert), no counter
    moves, no outcome is left and the database is as it was. *)
Theorem webhook_accounting :
  forall (secret : option string) (m : MetricsCollector) (db : Database)
         (now : string) (x_signature : option string) (raw_body : list Byte.byte),
    let w := webhook hmac parse secret m db now x_signature raw_body in
    match response w with
    | Ok status =>
        exists outcome,
          webhook_result (state w) = Some outcome /\
          (forall r, dd_get (webhook_requests (metrics_after w)) r
                     = dd_get (webhook_requests m) r
                       + (if outcome =? r then 1 else 0)) /\
          http_requests (metrics_after w) = http_requests m /\
          latency (metrics_after w) = latency m /\
          ((status = 401%Z /\ outcome = "invalid_signature" /\ db_after w = db) \/
           (status = 422%Z /\ outcome = "validation_error" /\ db_after w = db) \/
           (status = 200%Z /\ outcome = "duplicate" /\ db_after w = db /\
            webhook_dup (state w) = Some true) \/
           (status = 200%Z /\ outcome = "created" /\
            webhook_dup (state w) = Some false /\
            exists t message,
              db = Some t /\ parse raw_body = Some message /\
              has_key t (wm_message_id message) = false /\
              db_after w = Some (t ++ [row_of message now])))
    | Raise e =>
        metrics_after w = m /\ webhook_result (state w) = None /\
        db_after w = db /\ (e = TypeError \/ e = OperationalError)
    end.
Proof.
  intros secret m db now x_signature raw_body. unfold webhook.
  destruct (webhook_gate hmac secret x_signature raw_body) as [[|]|e] eqn:G.
  - simpl. exists "invalid_signature". counted.
    left. auto.
  - destruct (parse raw_body) as [message|] eqn:P.
    + unfold store_message, insert_message, execute_insert.
      destruct db as [t|]; simpl.
      * destruct (has_key t (wm_message_id message)) eqn:K; simpl.
        -- exists "duplicate". counted.
           right. right. left. auto.
        -- exists "created". counted.
           right. right. right. repeat (split; [reflexivity|]).
           exists t, message. auto.
      * auto.
    + simpl. exists "validation_error".
      counted. right. left. auto.
  - simpl. repeat (split; [reflexivity|]). left.
    unfold webhook_gate in G.
    destruct (negb (truthy x_signature) || negb (truthy secret)); [discriminate|].
    destruct secret as [sec|], x_signature as [sig|]; try discriminate.
    unfold verify_signature, compare_digest in G.
    destruct (is_ascii (hmac (encode_utf8 sec) raw_body) && is_ascii sig).
    + simpl in G. destruct (hmac (encode_utf8 sec) raw_body =? sig); discriminate.
    + simpl in G. now injection G as <-.
Qed.

(** X12. A delivery can be replayed.  If a delivery was answered 200, the same
    delivery sent again, at any later time and whatever the metrics, is
    answered 200 with the outcome duplicate, and it leaves the database
    exactly as the first delivery left it. *)
Theorem webhook_replay :
  forall (secret : option string) (m m' : MetricsCollector) (db : Database)
         (now1 now2 : string) (x_signature : option string)
         (raw_body : list Byte.byte),
    response (webhook hmac parse secret m db now1 x_signature raw_body) = Ok 200%Z ->
    let w1 := webhook hmac parse secret m db now1 x_signature raw_body in
    let w2 := webhook hmac parse secret m' (db_after w1) now2 x_signature raw_body in
    response w2 = Ok 200%Z /\
    webhook_result (state w2) = Some "duplicate" /\
    webhook_dup (state w2) = Some true /\
    webhook_message_id (state w2) = webhook_message_id (state w1) /\
    db_after w2 = db_after w1.
Proof.
  intros secret m m' db now1 now2 x_signature raw_body. unfold webhook.
  destruct (webhook_gate hmac secret x_signature raw_body) as [[|]|e] eqn:G;
    try discriminate.
  destruct (parse raw_body) as [message|] eqn:P; [|discriminate].
  unfold store_message, insert_message, execute_insert.
  destruct db as [t|]; [|discriminate].
  destruct (has_key t (wm_message_id message)) eqn:K; simpl; intros _.
  - rewrite K. simpl. auto.
  - assert (K' : has_key (t ++ [row_of message now1]) (wm_message_id message) = true).
    { unfold has_key. rewrite existsb_app. simpl. rewrite String.eqb_refl.
      now rewrite orb_true_r. }
    fold (row_of message now1). rewrite K'. simpl. auto.
Qed.

End WebhookFacts.

Lemma webhook_replay_witness :
  let hmac := fun (_ _ : list Byte.byte) => "ab" in
  let parse := fun (_ : list Byte.byte) => Some sample_payload in
  let w1 := webhook hmac parse (Some "s") new_collector (Some [])
              "2025-01-15T10:00:01Z" (Some "ab") [] in
  let w2 := webhook hmac parse (Some "s") new_collector (db_after w1)
              "2025-01-15T10:00:02Z" (Some "ab") [] in
  response w2 = Ok 200%Z /\
  webhook_result (state w2) = Some "duplicate" /\
  webhook_dup (state w2) = Some true /\
  webhook_message_id (state w2) = webhook_message_id (state w1) /\
  db_after w2 = db_after w1.
Proof.
  apply (webhook_replay (fun _ _ => "ab") (fun _ => Some sample_payload)
           (Some "s") new_collector new_collector (Some [])
           "2025-01-15T10:00:01Z" "2025-01-15T10:00:02Z" (Some "ab") []).
  reflexivity.
Defined.


(** X14. [list_messages] guards the store.  A limit outside [1,100] or a
    negative offset is answered 422 without the store being asked, so
    even without a table.  Otherwise, on an initialised store and with
    filter strings within the engine's size limits: when the offset is
    below 2^63 the answer is 200, it echoes the limit and the offset in
    force (50 and 0 when absent), and it carries
    min(limit, total - offset) items, none when the offset is past the
    total, never more than 100; when the offset is 2^63 or more, which
    the validation lets through, the store's OverflowError escapes. *)
Theorem list_messages_guard :
  forall (db : Database) (limit offset : option Z) (f s q : option string),
    let l := match limit with Some v => v | None => 50%Z end in
    let o := match offset with Some v => v | None => 0%Z end in
    ((l < 1)%Z \/ (100 < l)%Z \/ (o < 0)%Z ->
     list_messages db limit offset f s q = Ok (422%Z, None)) /\
    ((1 <= l <= 100)%Z -> (0 <= o)%Z ->
     texts_within_limits f s q = true ->
     forall t, db = Some t ->
       ((o < 2 ^ 63)%Z ->
        exists r,
          list_messages db limit offset f s q = Ok (200%Z, Some r) /\
          limit_ r = l /\ offset_ r = o /\
          total r = total_matching t f s q /\
          Z.of_nat (List.length (data r)) = Z.min l (Z.max 0 (total r - o)) /\
          List.length (data r) <= 100) /\
       ((2 ^ 63 <= o)%Z ->
        list_messages db limit offset f s q = Raise OverflowError)).
Proof.
  intros db limit offset f s q l o. unfold list_messages. fold l o. split.
  - intros H.
    destruct ((1 <=? l) && (l <=? 100))%Z eqn:A; [|reflexivity]. simpl.
    apply andb_true_iff in A as [A1 A2]. apply Z.leb_le in A1, A2.
    destruct (0 <=? o)%Z eqn:B; [|reflexivity]. apply Z.leb_le in B. lia.
  - intros Hl Ho _ t ->.
    assert (A : ((1 <=? l) && (l <=? 100))%Z = true)
      by (apply andb_true_iff; split; apply Z.leb_le; lia).
    assert (B : (0 <=? o)%Z = true) by (apply Z.leb_le; lia).
    rewrite A, B. cbv beta iota. split.
    + intros Hb.
      rewrite (get_messages_call_bound (Some t) l o f s q) by lia.
      simpl. eexists. split; [reflexivity|]. simpl.
      split; [reflexivity|]. split; [reflexivity|]. split; [reflexivity|].
      assert (L : Z.of_nat (List.length
                    (map to_dict (limit_offset l o
                       (order_by (filter (where_clause (conditions f s q)) t)))))
                  = Z.min l (Z.max 0 (total_matching t f s q - o))).
      { rewrite length_map, limit_offset_length. cbv zeta.
        rewrite (Permutation_length (order_by_perm _)).
        fold (matching t f s q). fold (total_matching t f s q).
        destruct (l <? 0)%Z eqn:E; [apply Z.ltb_lt in E; lia|].
        rewrite (Z.max_r 0 o) by lia. reflexivity. }
      split; [exact L | lia].
    + intros Hb.
      rewrite (get_messages_call_overflow t l o f s q) by (right; lia).
      reflexivity.
Qed.

Lemma list_messages_guard_witness :
  list_messages None (Some 101%Z) None None None None = Ok (422%Z, None) /\
  (exists r,
     list_messages (Some sample_table) (Some 2%Z) (Some 1%Z) None None None
     = Ok (200%Z, Some r) /\
     limit_ r = 2%Z /\ offset_ r = 1%Z /\
     total r = total_matching sample_table None None None /\
     Z.of_nat (List.length (data r)) = Z.min 2 (Z.max 0 (total r - 1)) /\
     List.length (data r) <= 100) /\
  list_messages (Some sample_table) (Some 2%Z) (Some (2 ^ 63)%Z) None None None
  = Raise OverflowError.
Proof.
  split; [|split].
  - apply (proj1 (list_messages_guard None (Some 101%Z) None None None None)).
    right. left. reflexivity.
  - apply (proj1 (proj2 (list_messages_guard (Some sample_table)
                           (Some 2%Z) (Some 1%Z) None None None)
                    ltac:(lia) ltac:(lia) eq_refl sample_table eq_refl)).
    lia.
  - apply (proj2 (proj2 (list_messages_guard (Some sample_table)
                           (Some 2%Z) (Some (2 ^ 63)%Z) None None None)
                    ltac:(lia) ltac:(lia) eq_refl sample_table eq_refl)).
    lia.
Defined.

End HandlersFacts.

(** ** More on the signature gate *)

Module SignatureMore.
Import Signature.

Section Gate.

Variable hmac : list Byte.byte -> list Byte.byte -> string.

(** X10. The gate lets a delivery through only on the digest.  If
    [webhook]'s signature gate authenticates a delivery, then the secret
    and the X-Signature header are both present and not empty, and the
    header is the hex digest of the body under the secret.  Conversely a
    header equal to the digest passes, when secret and digest are not
    empty and the digest is ASCII, as a hex digest is. *)
Theorem webhook_gate_sound :
  forall (secret x_signature : option string) (raw_body : list Byte.byte),
    (webhook_gate hmac secret x_signature raw_body = Ok Authenticated ->
     exists sec sig,
       secret = Some sec /\ x_signature = Some sig /\
       sec <> "" /\ sig <> "" /\
       sig = hmac (encode_utf8 sec) raw_body) /\
    (forall sec,
       secret = Some sec -> sec <> "" ->
       x_signature = Some (hmac (encode_utf8 sec) raw_body) ->
       hmac (encode_utf8 sec) raw_body <> "" ->
       is_ascii (hmac (encode_utf8 sec) raw_body) = true ->
       webhook_gate hmac secret x_signature raw_body = Ok Authenticated).
Proof.
  intros secret x_signature raw_body. unfold webhook_gate. split.
  - destruct secret as [sec|], x_signature as [sig|]; simpl;
      rewrite ?orb_true_r; try discriminate.
    destruct (String.eqb_spec sig "") as [-> | Ns]; simpl; [discriminate|].
    destruct (String.eqb_spec sec "") as [-> | Nc]; simpl; [discriminate|].
    unfold verify_signature, compare_digest.
    destruct (is_ascii (hmac (encode_utf8 sec) raw_body) && is_ascii sig);
      simpl; [|discriminate].
    destruct (String.eqb_spec (hmac (encode_utf8 sec) raw_body) sig) as [E | N];
      simpl; [|discriminate].
    intros _. exists sec, sig. auto.
  - intros sec -> Nc -> Nd A. simpl.
    apply String.eqb_neq in Nc, Nd. rewrite Nc, Nd. simpl.
    unfold verify_signature, compare_digest. rewrite A, String.eqb_refl. reflexivity.
Qed.

End Gate.

Lemma webhook_gate_sound_witness :
  exists sec sig,
    Some "s" = Some sec /\ Some "ab" = Some sig /\
    sec <> "" /\ sig <> "" /\ sig = "ab".
Proof.
  apply (proj1 (webhook_gate_sound (fun _ _ => "ab") (Some "s") (Some "ab") [])).
  reflexivity.
Defined.

End SignatureMore.

(** ** The request log *)

Module LoggingFacts.
Import Logging.

(** X23. Nothing of the context is lost on the way to the log line.  The entry
    that the formatter builds for the record of [log_request] is the
    three fields ts, level and message followed by the items of the
    context's dict, in the same order: request_id, method and path, then
    each optional field exactly when it is not None (a status of 0 and a
    dup of False included), and nothing else. *)
Theorem format_entry_of_context :
  forall (now level message : string) (ctx : RequestLogContext),
    let entry := format_entry now (log_request level message ctx) in
    entry = [("ts", VStr now); ("level", VStr level); ("message", VStr message)]
            ++ to_dict ctx /\
    (In "status" (map fst entry) <-> status ctx <> None) /\
    (In "latency_ms" (map fst entry) <-> latency_ms ctx <> None) /\
    (In "message_id" (map fst entry) <-> message_id ctx <> None) /\
    (In "dup" (map fst entry) <-> dup ctx <> None) /\
    (In "result" (map fst entry) <-> result_ ctx <> None).
Proof.
  intros now level message [rid met pth st lat mid dp res] entry. subst entry.
  split; [destruct st, lat, mid, dp, res; reflexivity|].
  repeat split; intros H;
    destruct st, lat, mid, dp, res; simpl in *;
    try discriminate; try tauto;
    repeat (destruct H as [H | H]; try discriminate H); try contradiction;
    try (exfalso; now apply H).
Qed.

End LoggingFacts.
